(** * pysc2/bin/compare_binaries.py: lockstep comparison of engine binaries

    A shallow embedding of [_clear_non_deterministic_fields] and [main],
    and the properties of the lockstep driver proved over it.

    Engine processes, the replay loader and the structural diff engine are
    collaborators outside this file: the engines' answers are given by a
    [World], the diff engine by a [DiffEngine], whose functions are taken
    to be total.  Calls into a collaborator and every [print] are
    recorded, in program order, as [Event]s.

    Left out: the [InterfaceOptions] and [RequestStartReplay] messages
    [main] builds (constants handed to the engines), and the stopwatches,
    which measure wall-clock time inside [with t(...)] blocks and let every
    exception through; of a stopwatch only its line in the report
    remains. *)

From stdpp Require Import base option list strings sorting.
From Stdlib Require Import ZArith Lia.

Set Implicit Arguments.

(** ** Protocol messages (s2clientprotocol), as far as the program reads them *)

Section Protocol.

(** The fields of a message this program never touches. *)
Variable Fields : Type.

(** [oneof target] of [UnitOrder] and of [ActionRawUnitCommand]. *)
Inductive Target :=
| target_unset
| target_world_space_pos (pos : Fields)
| target_unit_tag (tag : Z).

Record UnitOrder := {
  order_target : Target;
  order_fields : Fields }.

Record Unit := {
  unit_tag : option Z;
  unit_orders : list UnitOrder;
  unit_fields : Fields }.

Record ObservationRaw := {
  raw_units : list Unit;
  raw_fields : Fields }.

Record Observation := {
  game_loop : option Z;
  raw_data : option ObservationRaw;
  observation_fields : Fields }.

Record ActionRawUnitCommand := {
  command_target : Target;
  command_fields : Fields }.

(** [oneof action] of [ActionRaw]. *)
Inductive ActionRaw :=
| raw_action_unset
| raw_unit_command (cmd : ActionRawUnitCommand)
| raw_other_action (act : Fields).

Record Action := {
  action_raw : option ActionRaw;
  action_fields : Fields }.

Record ResponseObservation := {
  actions : list Action;
  observation : option Observation;
  player_result : list Fields;
  response_fields : Fields }.

(** *** [_clear_non_deterministic_fields] *)

(** [ClearField("target_unit_tag")] on a [oneof target]: only the member
    that is set can be cleared. *)
Definition clear_target_unit_tag (t : Target) : Target :=
  match t with
  | target_unit_tag _ => target_unset
  | _ => t
  end.

Definition clear_order (order : UnitOrder) : UnitOrder :=
  {| order_target := clear_target_unit_tag (order_target order);
     order_fields := order_fields order |}.

Definition clear_unit (unit : Unit) : Unit :=
  {| unit_tag := None;
     unit_orders := clear_order <$> unit_orders unit;
     unit_fields := unit_fields unit |}.

Definition clear_raw_data (raw : ObservationRaw) : ObservationRaw :=
  {| raw_units := clear_unit <$> raw_units raw;
     raw_fields := raw_fields raw |}.

Definition clear_observation (o : Observation) : Observation :=
  {| game_loop := game_loop o;
     raw_data := clear_raw_data <$> raw_data o;
     observation_fields := observation_fields o |}.

Definition clear_unit_command (cmd : ActionRawUnitCommand) : ActionRawUnitCommand :=
  {| command_target := clear_target_unit_tag (command_target cmd);
     command_fields := command_fields cmd |}.

(** [if action.action_raw.HasField("unit_command")] *)
Definition clear_action_raw (a : ActionRaw) : ActionRaw :=
  match a with
  | raw_unit_command cmd => raw_unit_command (clear_unit_command cmd)
  | _ => a
  end.

(** [if action.HasField("action_raw")] *)
Definition clear_action (action : Action) : Action :=
  {| action_raw := clear_action_raw <$> action_raw action;
     action_fields := action_fields action |}.

(** The function mutates [obs] in place; here it returns the message
    as it is after the call. *)
Definition _clear_non_deterministic_fields (obs : ResponseObservation)
  : ResponseObservation :=
  {| actions := clear_action <$> actions obs;
     observation := clear_observation <$> observation obs;
     player_result := player_result obs;
     response_fields := response_fields obs |}.

(** [obs.observation.game_loop]: an unset field reads as its default. *)
Definition read_game_loop (obs : ResponseObservation) : Z :=
  default 0%Z (observation obs ≫= @game_loop).

End Protocol.

Arguments target_unset {Fields}.
Arguments target_unit_tag {Fields} tag.
Arguments raw_action_unset {Fields}.
Arguments clear_target_unit_tag {Fields} t.
Arguments clear_order {Fields} order.
Arguments clear_unit {Fields} unit.
Arguments clear_raw_data {Fields} raw.
Arguments clear_observation {Fields} o.
Arguments clear_unit_command {Fields} cmd.
Arguments clear_action_raw {Fields} a.
Arguments clear_action {Fields} action.
Arguments _clear_non_deterministic_fields {Fields} obs.
Arguments read_game_loop {Fields} obs.

(** ** Exceptions and results *)

Inductive exn :=
| KeyboardInterrupt
| IndexError
| SystemExit (msg : string)
| EngineError (msg : string).

Inductive Res (A : Type) :=
| Ok (a : A)
| Raise (e : exn).

Arguments Raise {A} e.

(** What the interpreter does with the outcome of [app.run(main)]: a
    normal return is status 0; [sys.exit] with a message, or an uncaught
    exception, is status 1; an uncaught [KeyboardInterrupt] ends the
    interpreter (CPython 3.8 and later) by the signal SIGINT, which a
    shell reports as status 130. *)
Definition exit_status (r : Res unit) : Z :=
  match r with
  | Ok _ => 0
  | Raise KeyboardInterrupt => 130
  | Raise _ => 1
  end.

(** ** Command-line flags *)

Record Flags := {
  FLAGS_diff : bool;
  FLAGS_truncate : Z;
  FLAGS_step_mul : Z;
  FLAGS_count : Z;
  FLAGS_replay : option string }.

(** [enumerate(l, start)] *)
Definition enumerate {A} (start : nat) (l : list A) : list (nat * A) :=
  zip (seq start (length l)) l.

(** ** [collections.Counter]

    A dict with missing keys read as 0; a dict keeps its keys in the order
    they were first inserted, so it is an association list here. *)

Section Counter.

Context {K : Type} `{EqDecision K}.

Definition Counter := list (K * Z).

(** [c[key]] *)
Fixpoint counter_get (key : K) (c : Counter) : Z :=
  match c with
  | [] => 0
  | (k, v) :: c' => if decide (k = key) then v else counter_get key c'
  end.

(** [c[key] += 1] *)
Fixpoint counter_incr (key : K) (c : Counter) : Counter :=
  match c with
  | [] => [(key, 1%Z)]
  | (k, v) :: c' =>
      if decide (k = key) then (k, (v + 1)%Z) :: c'
      else (k, v) :: counter_incr key c'
  end.

(** One step of [sorted(items, key=itemgetter(1), reverse=True)]: [x]
    stood before every element of [l], so it stays before those whose
    count is not larger. *)
Fixpoint insert_by_count (x : K * Z) (l : list (K * Z)) : list (K * Z) :=
  match l with
  | [] => [x]
  | y :: l' =>
      if bool_decide (y.2 ≤ x.2)%Z then x :: y :: l'
      else y :: insert_by_count x l'
  end.

Definition sorted_by_count (c : Counter) : list (K * Z) :=
  foldr insert_by_count [] c.

(** [c.most_common(n)] *)
Definition most_common (n : nat) (c : Counter) : list (K * Z) :=
  take n (sorted_by_count c).

End Counter.

Arguments Counter K : clear implicits.

(** ** The structural diff engine ([pysc2.lib.proto_diff]) *)

Class DiffEngine (Fields : Type) := {
  ProtoPath : Type;
  ProtoPath_eq_dec :: EqDecision ProtoPath;
  (** what [compute_diff] returns *)
  DiffResult : Type;
  compute_diff : ResponseObservation Fields → ResponseObservation Fields → DiffResult;
  (** [bool(diff)] *)
  diff_truthy : DiffResult → bool;
  all_diffs : DiffResult → list ProtoPath;
  with_anonymous_array_indices : ProtoPath → ProtoPath }.

(** ** The engines' answers

    Instances are named by their position in [version_names]; [k] is the
    iteration of the observation loop in which a call is made. *)

Record World (Fields : Type) := {
  (** [run_config.replay_data(FLAGS.replay)] and [replay.get_replay_version] *)
  w_replay_data : Res unit;
  (** [run_configs.get(version=v).start(want_rgb=False)] *)
  w_launch : nat → Res unit;
  w_replay_info : nat → Res unit;
  w_start_replay : nat → Res unit;
  w_step : nat → nat → Res unit;
  w_observe : nat → nat → Res (ResponseObservation Fields);
  w_quit : nat → Res unit;
  w_close : nat → Res unit }.

Section Driver.

Context {Fields : Type} `{!DiffEngine Fields}.

(** *** Events *)

(** What [main] prints, one constructor per [print] statement. *)
Inductive Output :=
| OutRule                                           (* "-" * 80 *)
| OutReplayInfo                                     (* the replay info *)
| OutDiffOnStep (game_loop : Z)                     (* " Diff on step: %s " *)
| OutVersionName (name : string)                    (* version_names[i] *)
| OutDiffReport (d : DiffResult) (truncate_to : Z)  (* diff.report(...) *)
| OutTitle (title : string)                         (* title.center(80, "-") *)
| OutBinaryCount (count : Z) (binary : string)      (* " %5d %s" *)
| OutPathCount (count : Z) (path : ProtoPath)       (* " %5d %s" *)
| OutBlank                                          (* print() *)
| OutBinary (binary : string)                       (* v.binary *)
| OutTimer (i : nat).                               (* the stopwatch of instance i *)

(** A call into a collaborator, or a [print].  [EvComputeDiff k i] is
    [proto_diff.compute_diff(obs[0], obs[i])] in iteration [k]; the other
    calls name the instance they are made on. *)
Inductive Event :=
| EvReplayData
| EvLaunch (i : nat)
| EvReplayInfo (i : nat)
| EvStartReplay (i : nat)
| EvStep (k i : nat)
| EvObserve (k i : nat)
| EvComputeDiff (k i : nat)
| EvQuit (i : nat)
| EvClose (i : nat)
| EvPrint (o : Output).

(** *** The mutable locals of [main] *)

Record State := {
  procs : list nat;
  diff_counts : list Z;
  diff_paths : Counter ProtoPath }.

Definition initial_state : State :=
  {| procs := []; diff_counts := []; diff_paths := [] |}.

(** *** Computations: emit events, update the locals, return or raise *)

Definition M (A : Type) : Type := State → list Event * State * Res A.

Definition ret {A} (a : A) : M A := λ st, ([], st, Ok a).

Definition raise {A} (e : exn) : M A := λ st, ([], st, Raise e).

Definition bind {A B} (m : M A) (f : A → M B) : M B := λ st,
  match m st with
  | (evs, st1, Ok a) => let '(evs', st2, r) := f a st1 in (evs ++ evs', st2, r)
  | (evs, st1, Raise e) => (evs, st1, Raise e)
  end.

#[global] Instance M_ret : MRet M := @ret.
#[global] Instance M_bind : MBind M := λ A B f m, bind m f.

Definition get : M State := λ st, ([], st, Ok st).

Definition put (st : State) : M unit := λ _, ([], st, Ok tt).

(** A call into a collaborator. *)
Definition call {A} (ev : Event) (answer : Res A) : M A :=
  λ st, ([ev], st, answer).

Definition print (o : Output) : M unit := λ st, ([EvPrint o], st, Ok tt).

(** [l[i]] *)
Definition index {A} (l : list A) (i : nat) : M A :=
  match l !! i with
  | Some x => ret x
  | None => raise IndexError
  end.

(** [for x in l: body(x)] *)
Fixpoint for_each {A} (body : A → M unit) (l : list A) : M unit :=
  match l with
  | [] => ret tt
  | x :: l' => body x ;; for_each body l'
  end.

(** [ys = []; for x in l: ys.append(f(x))], and a comprehension alike. *)
Fixpoint collect {A B} (f : A → M B) (l : list A) : M (list B) :=
  match l with
  | [] => ret []
  | x :: l' => y ← f x; ys ← collect f l'; ret (y :: ys)
  end.

(** [for k in range(start, start + n): body(k)], where [body] answers
    [true] to [break]. *)
Fixpoint for_range (body : nat → M bool) (start n : nat) : M unit :=
  match n with
  | O => ret tt
  | S n' =>
      stop ← body start;
      if stop : bool then ret tt else for_range body (S start) n'
  end.

(** [try: body  except KeyboardInterrupt: pass  finally: final] *)
Definition try_except_finally (body final : M unit) : M unit := λ st,
  let '(evs, st1, r) := body st in
  let r' := match r with Raise KeyboardInterrupt => Ok tt | _ => r end in
  match final st1 with
  | (evs', st2, Ok _) => (evs ++ evs', st2, r')
  | (evs', st2, Raise e) => (evs ++ evs', st2, Raise e)
  end.

(** *** [main] *)

Variable FLAGS : Flags.
Variable w : World Fields.

Definition usage : string :=
  "Please specify binaries to run. The version must match the replay.".

(** [procs.append(run_configs.get(version=v).start(want_rgb=False))] *)
Definition launch (iv : nat * string) : M unit :=
  call (EvLaunch iv.1) (w_launch w iv.1) ;;
  st ← get;
  put {| procs := procs st ++ [iv.1];
         diff_counts := diff_counts st;
         diff_paths := diff_paths st |}.

(** [diff_counts = [0] * len(versions); diff_paths = collections.Counter()] *)
Definition init_counters (versions : list string) : M unit :=
  st ← get;
  put {| procs := procs st;
         diff_counts := replicate (length versions) 0%Z;
         diff_paths := [] |}.

(** [diff_counts[i] += 1] *)
Definition incr_diff_count (i : nat) : M unit :=
  st ← get;
  c ← index (diff_counts st) i;
  put {| procs := procs st;
         diff_counts := <[i := (c + 1)%Z]> (diff_counts st);
         diff_paths := diff_paths st |}.

(** [diff_paths[path] += 1] *)
Definition incr_diff_path (path : ProtoPath) : M unit :=
  st ← get;
  put {| procs := procs st;
         diff_counts := diff_counts st;
         diff_paths := counter_incr path (diff_paths st) |}.

(** The body of [for i, diff in diffs.items()]. *)
Definition record_diff (version_names : list string)
    (entry : nat * DiffResult) : M unit :=
  let '(i, diff) := entry in
  if diff_truthy diff then
    name ← index version_names i;
    print (OutVersionName name) ;;
    incr_diff_count i ;;
    print (OutDiffReport diff (FLAGS_truncate FLAGS)) ;;
    for_each (λ path, incr_diff_path (with_anonymous_array_indices path))
             (all_diffs diff)
  else ret tt.

(** The body of [if FLAGS.diff:] inside the loop; it answers the
    observations as the in-place clearing leaves them. *)
Definition diff_observations (version_names : list string) (k : nat)
    (obs : list (ResponseObservation Fields))
  : M (list (ResponseObservation Fields)) :=
  let obs := _clear_non_deterministic_fields <$> obs in
  diffs ← collect (λ io : nat * ResponseObservation Fields,
                     o0 ← index obs 0;
                     diff ← call (EvComputeDiff k io.1) (Ok (compute_diff o0 io.2));
                     ret (io.1, diff))
                  (enumerate 1 (drop 1 obs));
  (if existsb diff_truthy (diffs.*2) then
     o0 ← index obs 0;
     print (OutDiffOnStep (read_game_loop o0)) ;;
     for_each (record_diff version_names) diffs
   else ret tt) ;;
  ret obs.

(** One iteration of [for _ in range(FLAGS.count)]; [true] is [break]. *)
Definition tick (version_names : list string) (controllers : list nat)
    (k : nat) : M bool :=
  for_each (λ c, call (EvStep k c) (w_step w k c)) controllers ;;
  obs ← collect (λ c, call (EvObserve k c) (w_observe w k c)) controllers;
  obs ← (if FLAGS_diff FLAGS then diff_observations version_names k obs
         else ret obs);
  o0 ← index obs 0;
  ret (match player_result o0 with [] => false | _ :: _ => true end).

Definition observation_loop (version_names : list string)
    (controllers : list nat) : M unit :=
  for_range (tick version_names controllers) 0 (Z.to_nat (FLAGS_count FLAGS)).

(** The [try] block. *)
Definition try_body (version_names : list string)
    (controllers : list nat) : M unit :=
  print OutRule ;;
  c0 ← index controllers 0;
  call (EvReplayInfo c0) (w_replay_info w c0) ;;
  print OutReplayInfo ;;
  print OutRule ;;
  for_each (λ c, call (EvStartReplay c) (w_start_replay w c)) controllers ;;
  observation_loop version_names controllers.

(** The [finally] block. *)
Definition teardown_one (p : nat) : M unit :=
  call (EvQuit p) (w_quit w p) ;;
  call (EvClose p) (w_close w p).

Definition teardown : M unit :=
  st ← get;
  for_each teardown_one (procs st).

(** Everything after the [try] statement. *)
Definition report (versions : list string) : M unit :=
  (if FLAGS_diff FLAGS then
     print (OutTitle " Diff Counts by binary ") ;;
     st ← get;
     for_each (λ vc : string * Z, print (OutBinaryCount vc.2 vc.1))
              (zip versions (diff_counts st)) ;;
     print OutBlank ;;
     print (OutTitle " Diff Counts by observation path ") ;;
     for_each (λ vc : ProtoPath * Z, print (OutPathCount vc.2 vc.1))
              (most_common 100 (diff_paths st)) ;;
     print OutBlank
   else ret tt) ;;
  print (OutTitle " Timings ") ;;
  for_each (λ iv : nat * string, print (OutBinary iv.2) ;; print (OutTimer iv.1))
           (enumerate 0 versions).

Definition main (argv : list string) : M unit :=
  match argv with
  | [] => raise (SystemExit usage)
  | _ :: _ =>
      let version_names := drop 1 argv in
      call EvReplayData (w_replay_data w) ;;
      let versions := version_names in
      for_each launch (enumerate 0 versions) ;;
      st ← get;
      let controllers := procs st in
      init_counters versions ;;
      try_except_finally (try_body version_names controllers) teardown ;;
      report versions
  end.

(** A run of the program. *)
Definition run (argv : list string) : list Event * State * Res unit :=
  main argv initial_state.

End Driver.

(** ** Reading a trace *)

Section Traces.

Context {Fields : Type} `{!DiffEngine Fields}.

(** The instances that were sent [quit], in order. *)
Definition quit_calls (evs : list Event) : list nat :=
  omap (λ ev, match ev with EvQuit p => Some p | _ => None end) evs.

(** The instances whose process was closed, in order. *)
Definition close_calls (evs : list Event) : list nat :=
  omap (λ ev, match ev with EvClose p => Some p | _ => None end) evs.

(** The instances that were asked to launch, in order. *)
Definition launch_calls (evs : list Event) : list nat :=
  omap (λ ev, match ev with EvLaunch p => Some p | _ => None end) evs.

(** What was printed, in order. *)
Definition printed (evs : list Event) : list Output :=
  omap (λ ev, match ev with EvPrint o => Some o | _ => None end) evs.

(** The iteration of the observation loop an event belongs to. *)
Definition iteration (ev : Event) : option nat :=
  match ev with
  | EvStep k _ | EvObserve k _ | EvComputeDiff k _ => Some k
  | _ => None
  end.

(** The calls of the observation loop: step, observe, compute_diff. *)
Definition lockstep_event (ev : Event) : bool :=
  match iteration ev with
  | Some _ => true
  | None => false
  end.

Definition lockstep_trace (evs : list Event) : list Event :=
  filter lockstep_event evs.

(** The full teardown of [ps]: quit, then close, one instance after
    the other. *)
Definition teardown_calls (ps : list nat) : list Event :=
  ps ≫= λ p, [EvQuit p; EvClose p].

(** The calls of one complete iteration [k] over [controllers], as the
    lockstep order has them. *)
Definition lockstep_calls (diff : bool) (controllers : list nat) (k : nat)
  : list Event :=
  (EvStep k <$> controllers)
  ++ (EvObserve k <$> controllers)
  ++ (if diff then EvComputeDiff k <$> seq 1 (length controllers - 1) else []).

(** How many discrepancies of [diff] fall under the key [key]. *)
Definition path_hits (key : ProtoPath) (diff : DiffResult) : Z :=
  Z.of_nat (length (filter (λ path, with_anonymous_array_indices path = key)
                           (all_diffs diff))).

(** What one peer's diff adds to its instance counter, and to the
    counter of [key]. *)
Definition instance_gain (diff : DiffResult) : Z :=
  if diff_truthy diff then 1 else 0.

Definition path_gain (key : ProtoPath) (diff : DiffResult) : Z :=
  if diff_truthy diff then path_hits key diff else 0.

Definition sum_Z (l : list Z) : Z := foldr Z.add 0%Z l.

(** [for path in paths: c[with_anonymous_array_indices(path)] += 1] *)
Definition count_paths (paths : list ProtoPath) (c : Counter ProtoPath)
  : Counter ProtoPath :=
  foldl (λ c path, counter_incr (with_anonymous_array_indices path) c) c paths.

(** [obs[0].player_result] is not empty. *)
Definition game_over (o : ResponseObservation Fields) : bool :=
  match player_result o with
  | [] => false
  | _ :: _ => true
  end.

(** Whether the reference [c0] answers iteration [k] with an observation
    that carries a player result. *)
Definition reference_over (w : World Fields) (c0 k : nat) : bool :=
  match w_observe w k c0 with
  | Ok o => game_over o
  | Raise _ => false
  end.

(** How many iterations a loop of at most [n] iterations from [start]
    goes through when it stops after the first one that is [over]. *)
Fixpoint iterations_run (over : nat → bool) (start n : nat) : nat :=
  match n with
  | O => 0
  | S n' => if over start then 1 else S (iterations_run over (S start) n')
  end.

(** The lines of the report printed from the counters [st]. *)
Definition report_lines (FLAGS : Flags) (versions : list string) (st : State)
  : list Output :=
  (if FLAGS_diff FLAGS then
     OutTitle " Diff Counts by binary "
     :: ((λ vc : string * Z, OutBinaryCount vc.2 vc.1)
           <$> zip versions (diff_counts st))
     ++ OutBlank
     :: OutTitle " Diff Counts by observation path "
     :: ((λ vc : ProtoPath * Z, OutPathCount vc.2 vc.1)
           <$> most_common 100 (diff_paths st))
     ++ [OutBlank]
   else [])
  ++ OutTitle " Timings "
  :: (enumerate 0 versions ≫= λ iv, [OutBinary iv.2; OutTimer iv.1]).

(** The per-binary lines of a report, in the order printed. *)
Definition binary_lines (outs : list Output) : list (string * Z) :=
  omap (λ o, match o with OutBinaryCount c v => Some (v, c) | _ => None end) outs.

(** The per-path lines of a report, in the order printed. *)
Definition path_lines (outs : list Output) : list (ProtoPath * Z) :=
  omap (λ o, match o with OutPathCount c p => Some (p, c) | _ => None end) outs.

(** [x] is listed before [y] when its count is not smaller. *)
Definition by_count_desc {K} (x y : K * Z) : Prop := (y.2 ≤ x.2)%Z.

(** The locals as [main] has them when it enters the [try] statement
    with [n] launched instances. *)
Definition at_try (n : nat) : State :=
  {| procs := seq 0 n; diff_counts := replicate n 0%Z; diff_paths := [] |}.

(** [st] with [procs] replaced. *)
Definition with_procs (st : State) (ps : list nat) : State :=
  {| procs := ps; diff_counts := diff_counts st; diff_paths := diff_paths st |}.

End Traces.

(** ** A small diff engine and some engine behaviours, to run the program on *)

Module Sample.

(** A field path: field names, each with its sequence index if any. *)
Definition Path := list (string * option nat).

Definition anonymous (p : Path) : Path := (λ c, (c.1, None)) <$> p.

Definition tags (o : ResponseObservation unit) : list (option Z) :=
  default [] ((λ raw, @unit_tag unit <$> raw_units raw)
                <$> (observation o ≫= @raw_data unit)).

(** Compares the game loop, and the units' tags position by position. *)
Definition sample_diff (a b : ResponseObservation unit) : list Path :=
  (if decide (read_game_loop a = read_game_loop b) then []
   else [[("observation", None); ("game_loop", None)]])
  ++ omap (λ i, if decide (tags a !! i = tags b !! i) then None
                else Some [("units", Some i); ("tag", None)])
          (seq 0 (length (tags a) `max` length (tags b))).

#[global] Instance engine : DiffEngine unit := {|
  ProtoPath := Path;
  DiffResult := list Path;
  compute_diff := sample_diff;
  diff_truthy := λ d, match d with [] => false | _ => true end;
  all_diffs := λ d, d;
  with_anonymous_array_indices := anonymous |}.

Definition mk_unit (tag : Z) : Unit unit :=
  {| unit_tag := Some tag; unit_orders := []; unit_fields := () |}.

(** An observation at game loop [loop], with units of the given tags;
    [over] says whether it carries a player result. *)
Definition mk_obs (loop : Z) (unit_tags : list Z) (over : bool)
  : ResponseObservation unit :=
  {| actions := [];
     observation :=
       Some {| game_loop := Some loop;
               raw_data := Some {| raw_units := mk_unit <$> unit_tags;
                                   raw_fields := () |};
               observation_fields := () |};
     player_result := if over then [()] else [];
     response_fields := () |}.

Definition flags (diff : bool) (count : Z) : Flags :=
  {| FLAGS_diff := diff; FLAGS_truncate := 0; FLAGS_step_mul := 8;
     FLAGS_count := count; FLAGS_replay := Some "replay.SC2Replay" |}.

(** Every call succeeds; instance [i] is at game loop [8 (k + 1)] in
    iteration [k], except that instance 2 runs one loop ahead from
    iteration 1 on; the game is over in iteration [last]. *)
Definition steady (last : nat) : World unit :=
  {| w_replay_data := Ok ();
     w_launch := λ _, Ok ();
     w_replay_info := λ _, Ok ();
     w_start_replay := λ _, Ok ();
     w_step := λ _ _, Ok ();
     w_observe := λ k i,
       Ok (mk_obs (8 * (Z.of_nat k + 1)
                   + (if bool_decide (i = 2 ∧ 1 ≤ k)%nat then 1 else 0))
                  [Z.of_nat i; 7%Z] (bool_decide (k = last)));
     w_quit := λ _, Ok ();
     w_close := λ _, Ok () |}.

(** As [steady], but launching instance [i] fails. *)
Definition launch_fails (i : nat) : World unit :=
  {| w_replay_data := Ok ();
     w_launch := λ j, if bool_decide (j = i) then Raise (EngineError "launch") else Ok ();
     w_replay_info := λ _, Ok ();
     w_start_replay := λ _, Ok ();
     w_step := λ _ _, Ok ();
     w_observe := w_observe (steady 3);
     w_quit := λ _, Ok ();
     w_close := λ _, Ok () |}.

(** As [steady], but quitting instance [i] fails. *)
Definition quit_fails (i : nat) : World unit :=
  {| w_replay_data := Ok ();
     w_launch := λ _, Ok ();
     w_replay_info := λ _, Ok ();
     w_start_replay := λ _, Ok ();
     w_step := λ _ _, Ok ();
     w_observe := w_observe (steady 3);
     w_quit := λ j, if bool_decide (j = i) then Raise (EngineError "quit") else Ok ();
     w_close := λ _, Ok () |}.

(** As [steady], but the user interrupts the step of instance [i] in
    iteration [k]. *)
Definition interrupted (k i : nat) : World unit :=
  {| w_replay_data := Ok ();
     w_launch := λ _, Ok ();
     w_replay_info := λ _, Ok ();
     w_start_replay := λ _, Ok ();
     w_step := λ k' j,
       if bool_decide (k' = k ∧ j = i) then Raise KeyboardInterrupt else Ok ();
     w_observe := w_observe (steady 3);
     w_quit := λ _, Ok ();
     w_close := λ _, Ok () |}.

End Sample.

(** ** Observations that differ in tags only *)

Section TagsOnly.

Variable Fields : Type.

(** No [target_unit_tag] is set. *)
Definition target_tag_free (t : Target Fields) : bool :=
  match t with
  | target_unit_tag _ => false
  | _ => true
  end.

Definition unit_tag_free (unit : Unit Fields) : bool :=
  match unit_tag unit with
  | None => forallb (λ order, target_tag_free (order_target order)) (unit_orders unit)
  | Some _ => false
  end.

Definition action_tag_free (action : Action Fields) : bool :=
  match action_raw action with
  | Some (raw_unit_command cmd) => target_tag_free (command_target cmd)
  | _ => true
  end.

(** The observation holds none of the fields the normalizer clears. *)
Definition tag_free (obs : ResponseObservation Fields) : bool :=
  forallb action_tag_free (actions obs)
  && match observation obs ≫= @raw_data Fields with
     | Some raw => forallb unit_tag_free (raw_units raw)
     | None => true
     end.

(** Two targets that are the same position, or are both no position. *)
Definition target_alike (t1 t2 : Target Fields) : Prop :=
  match t1, t2 with
  | target_world_space_pos p1, target_world_space_pos p2 => p1 = p2
  | target_world_space_pos _, _ | _, target_world_space_pos _ => False
  | _, _ => True
  end.

Definition order_alike (o1 o2 : UnitOrder Fields) : Prop :=
  target_alike (order_target o1) (order_target o2)
  ∧ order_fields o1 = order_fields o2.

Definition unit_alike (u1 u2 : Unit Fields) : Prop :=
  Forall2 order_alike (unit_orders u1) (unit_orders u2)
  ∧ unit_fields u1 = unit_fields u2.

Definition raw_data_alike (r1 r2 : ObservationRaw Fields) : Prop :=
  Forall2 unit_alike (raw_units r1) (raw_units r2)
  ∧ raw_fields r1 = raw_fields r2.

Definition observation_alike (o1 o2 : Observation Fields) : Prop :=
  game_loop o1 = game_loop o2
  ∧ option_Forall2 raw_data_alike (raw_data o1) (raw_data o2)
  ∧ observation_fields o1 = observation_fields o2.

Definition action_raw_alike (a1 a2 : ActionRaw Fields) : Prop :=
  match a1, a2 with
  | raw_action_unset, raw_action_unset => True
  | raw_unit_command c1, raw_unit_command c2 =>
      target_alike (command_target c1) (command_target c2)
      ∧ command_fields c1 = command_fields c2
  | raw_other_action x1, raw_other_action x2 => x1 = x2
  | _, _ => False
  end.

Definition action_alike (a1 a2 : Action Fields) : Prop :=
  option_Forall2 action_raw_alike (action_raw a1) (action_raw a2)
  ∧ action_fields a1 = action_fields a2.

(** The two observations have the same content, field by field, but for
    the units' tags and the unit tags that orders and unit commands
    target, which may be set, unset or different. *)
Definition alike_up_to_tags (obs1 obs2 : ResponseObservation Fields) : Prop :=
  Forall2 action_alike (actions obs1) (actions obs2)
  ∧ option_Forall2 observation_alike (observation obs1) (observation obs2)
  ∧ player_result obs1 = player_result obs2
  ∧ response_fields obs1 = response_fields obs2.

End TagsOnly.

Arguments target_tag_free {Fields} t.
Arguments unit_tag_free {Fields} unit.
Arguments action_tag_free {Fields} action.
Arguments tag_free {Fields} obs.
Arguments target_alike {Fields} t1 t2.
Arguments order_alike {Fields} o1 o2.
Arguments unit_alike {Fields} u1 u2.
Arguments raw_data_alike {Fields} r1 r2.
Arguments observation_alike {Fields} o1 o2.
Arguments action_raw_alike {Fields} a1 a2.
Arguments action_alike {Fields} a1 a2.
Arguments alike_up_to_tags {Fields} obs1 obs2.

(** ** The shape of a run *)

Section Shapes.

Context {Fields : Type} `{!DiffEngine Fields}.

Definition is_call (ev : Event) : bool :=
  match ev with
  | EvPrint _ => false
  | _ => true
  end.

(** The calls into collaborators, in order. *)
Definition engine_calls (evs : list Event) : list Event := filter is_call evs.

(** The calls before the [try] statement when [n] binaries are named. *)
Definition startup_calls (n : nat) : list Event :=
  EvReplayData :: (EvLaunch <$> seq 0 n).

(** The calls of a [try] block that runs through its whole budget. *)
Definition try_calls (FLAGS : Flags) (n : nat) : list Event :=
  EvReplayInfo 0
  :: (EvStartReplay <$> seq 0 n)
  ++ (seq 0 (Z.to_nat (FLAGS_count FLAGS))
        ≫= lockstep_calls (FLAGS_diff FLAGS) (seq 0 n)).

(** Some collaborator answers a call by raising [e]. *)
Definition raised_by (w : World Fields) (e : exn) : Prop :=
  w_replay_data w = Raise e
  ∨ (∃ i, w_launch w i = Raise e)
  ∨ (∃ i, w_replay_info w i = Raise e)
  ∨ (∃ i, w_start_replay w i = Raise e)
  ∨ (∃ k i, w_step w k i = Raise e)
  ∨ (∃ k i, w_observe w k i = Raise e)
  ∨ (∃ i, w_quit w i = Raise e)
  ∨ (∃ i, w_close w i = Raise e).

(** No call of the first [n] iterations on the first [m] instances, and
    no call outside the loop on them, raises. *)
Definition answers_all (w : World Fields) (m n : nat) : Prop :=
  w_replay_data w = Ok ()
  ∧ ∀ i, i < m →
      w_launch w i = Ok () ∧ w_replay_info w i = Ok ()
      ∧ w_start_replay w i = Ok ()
      ∧ w_quit w i = Ok () ∧ w_close w i = Ok ()
      ∧ ∀ k, k < n → w_step w k i = Ok () ∧ ∃ o, w_observe w k i = Ok o.

(** The keys of the path counter are distinct anonymized paths, each
    counted at least once. *)
Definition path_table_ok (c : Counter ProtoPath) : Prop :=
  NoDup c.*1
  ∧ Forall (λ kv, (1 ≤ kv.2)%Z ∧ ∃ path, kv.1 = with_anonymous_array_indices path) c.

(** What [main] ends with when the [try] block ended with [r] and the
    [finally] block with [rd]. *)
Definition outcome (r rd : Res unit) : Res unit :=
  match rd with
  | Raise e' => Raise e'
  | Ok _ => match r with Raise KeyboardInterrupt => Ok () | _ => r end
  end.

(** The lines a tick prints about a divergence. *)
Definition diff_output (o : Output) : bool :=
  match o with
  | OutDiffOnStep _ | OutVersionName _ | OutDiffReport _ _ => true
  | _ => false
  end.

(** What [main] prints after the [try] statement when that ended with
    [r]: the report, if [main] gets there. *)
Definition report_events (FLAGS : Flags) (versions : list string) (st : State)
    (r : Res unit) : list Event :=
  match r with
  | Ok _ => EvPrint <$> report_lines FLAGS versions st
  | Raise _ => []
  end.

End Shapes.

(** ** More engine behaviours *)

Module Scenario.

(** As [Sample.steady last], but a step raises where [step_fault] says,
    and a [quit] where [quit_fault] says. *)
Definition faulty (last : nat) (step_fault : nat → nat → option exn)
    (quit_fault : nat → option exn) : World unit :=
  {| w_replay_data := Ok ();
     w_launch := λ _, Ok ();
     w_replay_info := λ _, Ok ();
     w_start_replay := λ _, Ok ();
     w_step := λ k i, match step_fault k i with Some e => Raise e | None => Ok () end;
     w_observe := w_observe (Sample.steady last);
     w_quit := λ i, match quit_fault i with Some e => Raise e | None => Ok () end;
     w_close := λ _, Ok () |}.

(** The step of instance [i] in iteration [k] raises [e]. *)
Definition step_raises (k i : nat) (e : exn) : nat → nat → option exn :=
  λ k' i', if bool_decide (k' = k ∧ i' = i) then Some e else None.

(** The [quit] of instance [i] raises [e]. *)
Definition quit_raises (i : nat) (e : exn) : nat → option exn :=
  λ i', if bool_decide (i' = i) then Some e else None.

(** Every call succeeds and every instance answers the same observation
    but for its units' tags; the game is never over. *)
Definition identical : World unit :=
  {| w_replay_data := Ok ();
     w_launch := λ _, Ok ();
     w_replay_info := λ _, Ok ();
     w_start_replay := λ _, Ok ();
     w_step := λ _ _, Ok ();
     w_observe := λ k i,
       Ok (Sample.mk_obs (8 * (Z.of_nat k + 1)) [Z.of_nat i; 7%Z] false);
     w_quit := λ _, Ok ();
     w_close := λ _, Ok () |}.

End Scenario.

(** * Properties *)

Unset Implicit Arguments.

(** ** The observation normalizer *)

Section Normalizer.

Context {Fields : Type}.

Lemma clear_target_unit_tag_idem (t : Target Fields) :
  clear_target_unit_tag (clear_target_unit_tag t) = clear_target_unit_tag t.
Proof. by destruct t. Qed.

Lemma clear_order_idem (order : UnitOrder Fields) :
  clear_order (clear_order order) = clear_order order.
Proof.
  unfold clear_order; simpl. by rewrite clear_target_unit_tag_idem.
Qed.

Lemma fmap_idem {A} (f : A → A) (l : list A) :
  (∀ x, f (f x) = f x) → f <$> (f <$> l) = f <$> l.
Proof.
  intros Hf. rewrite <- list_fmap_compose.
  apply list_fmap_ext. intros _ x _. apply Hf.
Qed.

Lemma option_fmap_idem {A} (f : A → A) (o : option A) :
  (∀ x, f (f x) = f x) → f <$> (f <$> o) = f <$> o.
Proof. intros Hf. destruct o as [x|]; simpl; [by rewrite Hf | done]. Qed.

Lemma clear_unit_idem (unit : Unit Fields) :
  clear_unit (clear_unit unit) = clear_unit unit.
Proof.
  unfold clear_unit; simpl. f_equal. apply fmap_idem, clear_order_idem.
Qed.

Lemma clear_raw_data_idem (raw : ObservationRaw Fields) :
  clear_raw_data (clear_raw_data raw) = clear_raw_data raw.
Proof.
  unfold clear_raw_data; simpl. f_equal. apply fmap_idem, clear_unit_idem.
Qed.

Lemma clear_observation_idem (o : Observation Fields) :
  clear_observation (clear_observation o) = clear_observation o.
Proof.
  unfold clear_observation; simpl. f_equal.
  apply option_fmap_idem, clear_raw_data_idem.
Qed.

Lemma clear_action_raw_idem (a : ActionRaw Fields) :
  clear_action_raw (clear_action_raw a) = clear_action_raw a.
Proof.
  destruct a as [|cmd|]; simpl; try done.
  unfold clear_unit_command; simpl. by rewrite clear_target_unit_tag_idem.
Qed.

Lemma clear_action_idem (action : Action Fields) :
  clear_action (clear_action action) = clear_action action.
Proof.
  unfold clear_action; simpl. f_equal.
  apply option_fmap_idem, clear_action_raw_idem.
Qed.

(** C7. Clearing the non-deterministic fields of an observation that
    has already been cleared changes nothing: for every observation
    [obs], applying [_clear_non_deterministic_fields] twice gives the
    same message as applying it once. *)
Theorem clear_non_deterministic_fields_idempotent
    (obs : ResponseObservation Fields) :
  _clear_non_deterministic_fields (_clear_non_deterministic_fields obs)
  = _clear_non_deterministic_fields obs.
Proof.
  unfold _clear_non_deterministic_fields; simpl. f_equal.
  - apply fmap_idem, clear_action_idem.
  - apply option_fmap_idem, clear_observation_idem.
Qed.

Lemma clear_player_result (obs : ResponseObservation Fields) :
  player_result (_clear_non_deterministic_fields obs) = player_result obs.
Proof. done. Qed.

End Normalizer.

(** ** Running computations *)

Section Running.

Context {Fields : Type} `{!DiffEngine Fields}.

Lemma run_bind {A B} (m : M A) (f : A → M B) st :
  (m ≫= f) st =
  match m st with
  | (evs, st1, Ok a) => let '(evs', st2, r) := f a st1 in (evs ++ evs', st2, r)
  | (evs, st1, Raise e) => (evs, st1, Raise e)
  end.
Proof. done. Qed.

Lemma run_bind_ok {A B} (m : M A) (f : A → M B) st evs st1 a :
  m st = (evs, st1, Ok a) →
  (m ≫= f) st = let '(evs', st2, r) := f a st1 in (evs ++ evs', st2, r).
Proof. intros Hm. by rewrite run_bind, Hm. Qed.

Lemma run_bind_raise {A B} (m : M A) (f : A → M B) st evs st1 e :
  m st = (evs, st1, Raise e) → (m ≫= f) st = (evs, st1, Raise e).
Proof. intros Hm. by rewrite run_bind, Hm. Qed.

Lemma run_ret {A} (a : A) (st : State) : ret a st = ([], st, Ok a).
Proof. done. Qed.

Lemma for_each_cons {A} (body : A → M unit) x l :
  for_each body (x :: l) = (body x ≫= λ _, for_each body l).
Proof. done. Qed.

Lemma collect_cons {A B} (f : A → M B) x l :
  collect f (x :: l) = (f x ≫= λ y, collect f l ≫= λ ys, ret (y :: ys)).
Proof. done. Qed.

Lemma for_range_S (body : nat → M bool) start n :
  for_range body start (S n)
  = (body start ≫= λ stop : bool,
       if stop then ret () else for_range body (S start) n).
Proof. done. Qed.

(** A loop of calls leaves the locals alone, and makes its calls in the
    order of the list, up to the first one that raises. *)
Lemma for_each_call_ok (ev : nat → Event) (ans : nat → Res unit) l st :
  (∀ c, c ∈ l → ans c = Ok ()) →
  for_each (λ c, call (ev c) (ans c)) l st = (ev <$> l, st, Ok ()).
Proof.
  induction l as [|c l IH]; intros Hok; [done|].
  simpl. rewrite run_bind. unfold call at 1.
  rewrite (Hok c) by left. rewrite IH; [done|].
  intros c' Hc'. apply Hok. by right.
Qed.

Lemma for_each_call_prefix (ev : nat → Event) (ans : nat → Res unit) l st :
  ∃ evs r, for_each (λ c, call (ev c) (ans c)) l st = (evs, st, r)
           ∧ evs `prefix_of` (ev <$> l)
           ∧ (∀ u, r = Ok u → evs = ev <$> l).
Proof.
  induction l as [|c l IH]; simpl.
  - exists [], (Ok ()). by repeat split.
  - rewrite run_bind. unfold call at 1.
    destruct (ans c) as [[]|e].
    + destruct IH as (evs & r & -> & Hpre & Hall).
      exists (ev c :: evs), r. repeat split.
      * by apply prefix_cons.
      * intros u Hu. by rewrite (Hall u Hu).
    + exists [ev c], (Raise e). repeat split; [|done].
      apply prefix_cons, prefix_nil.
Qed.

End Running.

(** ** Launch and teardown *)

Section Lifecycle.

Context {Fields : Type} `{!DiffEngine Fields}.
Variable w : World Fields.

Lemma launch_loop_ok (names : list string) (i : nat) st :
  (∀ j, i ≤ j < i + length names → w_launch w j = Ok ()) →
  for_each (launch w) (enumerate i names) st
  = (EvLaunch <$> seq i (length names),
     with_procs st (procs st ++ seq i (length names)), Ok ()).
Proof.
  revert i st. induction names as [|v names IH]; intros i st Hok.
  - simpl. unfold ret. destruct st. unfold with_procs; simpl.
    by rewrite app_nil_r.
  - change (enumerate i (v :: names)) with ((i, v) :: enumerate (S i) names).
    simpl. rewrite run_bind. unfold launch at 1. rewrite run_bind. unfold call at 1. simpl.
    rewrite (Hok i) by (simpl; lia). simpl.
    rewrite IH by (intros j Hj; apply Hok; simpl; lia).
    unfold with_procs; simpl. by rewrite <- app_assoc.
Qed.

Lemma launch_loop_raise (launched rest : list string) v (i : nat) e st :
  (∀ j, i ≤ j < i + length launched → w_launch w j = Ok ()) →
  w_launch w (i + length launched) = Raise e →
  for_each (launch w) (enumerate i (launched ++ v :: rest)) st
  = (EvLaunch <$> seq i (S (length launched)),
     with_procs st (procs st ++ seq i (length launched)), Raise e).
Proof.
  revert i st. induction launched as [|v' launched IH]; intros i st Hok Hfail.
  - change (enumerate i ([] ++ v :: rest)) with ((i, v) :: enumerate (S i) rest).
    simpl. rewrite run_bind. unfold launch at 1. rewrite run_bind. unfold call at 1. simpl.
    simpl in Hfail. rewrite Nat.add_0_r in Hfail. rewrite Hfail.
    destruct st; unfold with_procs; simpl. by rewrite app_nil_r.
  - change (enumerate i ((v' :: launched) ++ v :: rest))
      with ((i, v') :: enumerate (S i) (launched ++ v :: rest)).
    simpl. rewrite run_bind. unfold launch at 1. rewrite run_bind. unfold call at 1. simpl.
    rewrite (Hok i) by (simpl; lia). simpl.
    rewrite (IH (S i)).
    + unfold with_procs; simpl. by rewrite <- app_assoc.
    + intros j Hj. apply Hok. simpl. lia.
    + rewrite <- Hfail. f_equal. simpl. lia.
Qed.

Lemma teardown_one_ok p st :
  w_quit w p = Ok () → w_close w p = Ok () →
  teardown_one w p st = ([EvQuit p; EvClose p], st, Ok ()).
Proof.
  intros Hq Hc. unfold teardown_one. rewrite run_bind. unfold call.
  by rewrite Hq, Hc.
Qed.

Lemma teardown_loop_ok ps st :
  (∀ p, p ∈ ps → w_quit w p = Ok () ∧ w_close w p = Ok ()) →
  for_each (teardown_one w) ps st = (teardown_calls ps, st, Ok ()).
Proof.
  induction ps as [|p ps IH]; intros Hok; [done|].
  simpl. rewrite run_bind.
  destruct (Hok p) as [Hq Hc]; [by left|].
  rewrite teardown_one_ok by done. rewrite IH; [done|].
  intros q Hq'. apply Hok. by right.
Qed.

Lemma teardown_loop_raise pre p post e st :
  (∀ q, q ∈ pre → w_quit w q = Ok () ∧ w_close w q = Ok ()) →
  w_quit w p = Raise e ∨ (w_quit w p = Ok () ∧ w_close w p = Raise e) →
  for_each (teardown_one w) (pre ++ p :: post) st
  = (teardown_calls pre
     ++ EvQuit p :: (if w_quit w p is Ok _ then [EvClose p] else []),
     st, Raise e).
Proof.
  induction pre as [|q pre IH]; intros Hok Hfail.
  - simpl. rewrite run_bind. unfold teardown_one. rewrite run_bind. unfold call.
    destruct Hfail as [-> | [-> ->]]; done.
  - simpl. rewrite run_bind.
    destruct (Hok q) as [Hq Hc]; [by left|].
    rewrite teardown_one_ok by done. rewrite IH; [done| |done].
    intros q' Hq'. apply Hok. by right.
Qed.

Lemma quit_calls_launches (l : list nat) : quit_calls (EvLaunch <$> l) = [].
Proof. by induction l. Qed.

Lemma close_calls_launches (l : list nat) : close_calls (EvLaunch <$> l) = [].
Proof. by induction l. Qed.

Lemma launch_calls_launches (l : list nat) : launch_calls (EvLaunch <$> l) = l.
Proof. induction l; [done|]. simpl. by f_equal. Qed.

(** C1 (the code does otherwise). The launch loop stands before the
    [try] statement: when the launch of instance [length launched]
    raises after the instances before it were launched, [main] ends
    with that exception, [procs] still holds the launched instances,
    and none of them was sent [quit] or had its process closed. *)
Theorem launch_failure_skips_teardown FLAGS prog (launched rest : list string) v e :
  w_replay_data w = Ok () →
  (∀ j, j < length launched → w_launch w j = Ok ()) →
  w_launch w (length launched) = Raise e →
  ∃ evs st,
    run FLAGS w (prog :: launched ++ v :: rest) = (evs, st, Raise e)
    ∧ launch_calls evs = seq 0 (S (length launched))
    ∧ procs st = seq 0 (length launched)
    ∧ quit_calls evs = []
    ∧ close_calls evs = [].
Proof.
  intros Hreplay Hok Hfail.
  unfold run, main. simpl drop.
  rewrite run_bind. unfold call at 1. rewrite Hreplay.
  rewrite run_bind.
  rewrite (launch_loop_raise launched rest v 0 e)
    by (try done; intros j Hj; apply Hok; lia).
  eexists _, _. split; [done|]. simpl.
  rewrite quit_calls_launches, close_calls_launches, launch_calls_launches.
  done.
Qed.

(** C2, as the code has it. The [finally] block quits and closes the
    instances in order with nothing guarding either call: when no call
    raises, every instance is sent [quit] and closed; when a [quit] or
    [close] raises at instance [p], the instances before [p] have been
    quit and closed, [p] has been sent [quit] (and closed only if its
    [quit] returned), the block ends with that exception, and the
    instances after [p] receive no call. *)
Theorem teardown_in_order_until_failure (st : State) :
  ((∀ p, p ∈ procs st → w_quit w p = Ok () ∧ w_close w p = Ok ()) →
   teardown w st = (teardown_calls (procs st), st, Ok ()))
  ∧ (∀ pre p post e,
       procs st = pre ++ p :: post →
       (∀ q, q ∈ pre → w_quit w q = Ok () ∧ w_close w q = Ok ()) →
       w_quit w p = Raise e ∨ (w_quit w p = Ok () ∧ w_close w p = Raise e) →
       teardown w st
       = (teardown_calls pre
          ++ EvQuit p :: (if w_quit w p is Ok _ then [EvClose p] else []),
          st, Raise e)).
Proof.
  split.
  - intros Hok. unfold teardown. rewrite run_bind. simpl.
    by rewrite teardown_loop_ok.
  - intros pre p post e Hprocs Hok Hfail.
    unfold teardown. rewrite run_bind. simpl. rewrite Hprocs.
    by rewrite (teardown_loop_raise pre p post e).
Qed.

(** C3 (the code does otherwise). [main] tests [argv], which always
    holds the program's name, and not [argv[1:]]: with no binary named
    on the command line the test passes, the replay is loaded, and,
    unless loading it raises, the run ends in an [IndexError] at
    [controllers[0]] instead of the usage message.  With at least one
    binary named the test passes as well. *)
Theorem no_binaries_passes_argv_check FLAGS prog :
  run FLAGS w [prog]
  = match w_replay_data w with
    | Ok _ => ([EvReplayData; EvPrint OutRule], initial_state, Raise IndexError)
    | Raise e => ([EvReplayData], initial_state, Raise e)
    end
  ∧ (∀ b rest, ∃ evs st r,
       run FLAGS w (prog :: b :: rest) = (EvReplayData :: evs, st, r))
  ∧ run FLAGS w [] = ([], initial_state, Raise (SystemExit usage)).
Proof.
  split; [|split].
  - unfold run, main. simpl drop.
    rewrite run_bind. unfold call at 1.
    destruct (w_replay_data w) as [[]|e]; [|done].
    reflexivity.
  - intros b rest. unfold run, main. simpl drop.
    rewrite run_bind. unfold call at 1.
    destruct (w_replay_data w) as [[]|e].
    + match goal with
      | |- context [match ?m with (_, _) => _ end] =>
          destruct m as [[evs' st2] r]
      end.
      by eexists _, _, _.
    + by eexists _, _, _.
  - done.
Qed.

End Lifecycle.

(** C1, on a run: the second of two launches fails. *)
Lemma launch_failure_skips_teardown_witness :
  ∃ evs st,
    run (Sample.flags true 10) (Sample.launch_fails 1) ["compare_binaries"; "4.10"; "4.11"]
    = (evs, st, Raise (EngineError "launch"))
    ∧ launch_calls evs = [0; 1]
    ∧ procs st = [0]
    ∧ quit_calls evs = []
    ∧ close_calls evs = [].
Proof.
  apply (launch_failure_skips_teardown (Sample.launch_fails 1) (Sample.flags true 10)
           "compare_binaries" ["4.10"] [] "4.11" (EngineError "launch")).
  - reflexivity.
  - intros j Hj. simpl in Hj. assert (j = 0) as -> by lia. reflexivity.
  - reflexivity.
Defined.

(** C2 fails on the code: two instances are launched, quitting the first
    raises, and the second is neither sent [quit] nor closed. *)
Lemma teardown_abandons_remaining_instances :
  let '(evs, st, r) :=
    run (Sample.flags true 10) (Sample.quit_fails 0) ["compare_binaries"; "4.10"; "4.11"] in
  procs st = [0; 1]
  ∧ r = Raise (EngineError "quit")
  ∧ ¬ (∀ p, p ∈ procs st → p ∈ quit_calls evs ∧ p ∈ close_calls evs).
Proof.
  vm_compute. split; [done|]. split; [done|].
  intros H. destruct (H 1) as [Hq _].
  - apply list_elem_of_In. simpl. tauto.
  - apply list_elem_of_In in Hq. simpl in Hq. intuition lia.
Qed.

Lemma teardown_in_order_until_failure_witness :
  teardown (Sample.steady 3) (with_procs initial_state [0; 1])
  = ([EvQuit 0; EvClose 0; EvQuit 1; EvClose 1], with_procs initial_state [0; 1], Ok ())
  ∧ teardown (Sample.quit_fails 0) (with_procs initial_state [0; 1])
    = ([EvQuit 0], with_procs initial_state [0; 1], Raise (EngineError "quit")).
Proof.
  split.
  - apply (proj1 (teardown_in_order_until_failure (Sample.steady 3)
                    (with_procs initial_state [0; 1]))).
    intros p Hp. split; reflexivity.
  - apply (proj2 (teardown_in_order_until_failure (Sample.quit_fails 0)
                    (with_procs initial_state [0; 1])) [] 0 [1] (EngineError "quit")).
    + reflexivity.
    + intros q Hq. by apply elem_of_nil in Hq.
    + left. reflexivity.
Defined.

(** ** Traces *)

Section TraceLemmas.

Context {Fields : Type} `{!DiffEngine Fields}.

Lemma lockstep_trace_app (evs1 evs2 : list Event) :
  lockstep_trace (evs1 ++ evs2) = lockstep_trace evs1 ++ lockstep_trace evs2.
Proof. apply filter_app. Qed.

Lemma quit_calls_app (evs1 evs2 : list Event) :
  quit_calls (evs1 ++ evs2) = quit_calls evs1 ++ quit_calls evs2.
Proof. apply omap_app. Qed.

Lemma close_calls_app (evs1 evs2 : list Event) :
  close_calls (evs1 ++ evs2) = close_calls evs1 ++ close_calls evs2.
Proof. apply omap_app. Qed.

Lemma printed_app (evs1 evs2 : list Event) :
  printed (evs1 ++ evs2) = printed evs1 ++ printed evs2.
Proof. apply omap_app. Qed.

Lemma lockstep_trace_cons (ev : Event) evs :
  lockstep_trace (ev :: evs)
  = if lockstep_event ev then ev :: lockstep_trace evs else lockstep_trace evs.
Proof.
  unfold lockstep_trace. rewrite filter_cons.
  case_decide as Hev; destruct (lockstep_event ev); simpl in *; tauto.
Qed.

Lemma lockstep_trace_nil : lockstep_trace (@nil Event) = [].
Proof. done. Qed.

Lemma lockstep_trace_all (evs : list Event) :
  Forall (λ ev, lockstep_event ev = true) evs → lockstep_trace evs = evs.
Proof.
  induction 1 as [|ev evs Hev _ IH]; [done|].
  by rewrite lockstep_trace_cons, Hev, IH.
Qed.

Lemma lockstep_trace_steps k (l : list nat) :
  lockstep_trace (EvStep k <$> l) = EvStep k <$> l.
Proof. apply lockstep_trace_all, Forall_fmap, Forall_true. done. Qed.

Lemma lockstep_trace_observes k (l : list nat) :
  lockstep_trace (EvObserve k <$> l) = EvObserve k <$> l.
Proof. apply lockstep_trace_all, Forall_fmap, Forall_true. done. Qed.

Lemma lockstep_trace_diffs k (l : list nat) :
  lockstep_trace (EvComputeDiff k <$> l) = EvComputeDiff k <$> l.
Proof. apply lockstep_trace_all, Forall_fmap, Forall_true. done. Qed.

Lemma lockstep_trace_prefix (evs all : list Event) :
  evs `prefix_of` all → lockstep_trace all = all → lockstep_trace evs = evs.
Proof.
  intros [rest ->] Hall. rewrite lockstep_trace_app in Hall.
  assert (length (lockstep_trace evs) ≤ length evs) as H1
    by apply length_filter.
  assert (length (lockstep_trace rest) ≤ length rest) as H2
    by apply length_filter.
  apply (f_equal length) in Hall as Hlen. rewrite !length_app in Hlen.
  apply app_inj_1 in Hall as [? ?]; [done|lia].
Qed.

Lemma quit_calls_diffs k (l : list nat) : quit_calls (EvComputeDiff k <$> l) = [].
Proof. by induction l. Qed.

Lemma close_calls_diffs k (l : list nat) : close_calls (EvComputeDiff k <$> l) = [].
Proof. by induction l. Qed.

End TraceLemmas.

Create Rewrite HintDb trace.

#[global] Hint Rewrite @lockstep_trace_app @quit_calls_app @close_calls_app
  @lockstep_trace_diffs @quit_calls_diffs @close_calls_diffs
  @lockstep_trace_steps @lockstep_trace_observes
  @lockstep_trace_nil @app_nil_r @app_nil_l : trace.

(** ** The divergence counters *)

Section Aggregation.

Context {Fields : Type} `{!DiffEngine Fields}.
Variable FLAGS : Flags.

Lemma counter_get_incr {K} `{EqDecision K} (k key : K) (c : Counter K) :
  counter_get key (counter_incr k c)
  = (counter_get key c + if decide (k = key) then 1 else 0)%Z.
Proof.
  induction c as [|[k' v] c IH]; simpl.
  - repeat case_decide; simplify_eq; lia.
  - repeat (case_decide; simpl; simplify_eq); try lia; done.
Qed.

Lemma counter_get_count_paths key paths c :
  counter_get key (count_paths paths c)
  = (counter_get key c
     + Z.of_nat (length (filter (λ path, with_anonymous_array_indices path = key)
                                paths)))%Z.
Proof.
  revert c. induction paths as [|path paths IH]; intros c.
  - simpl. lia.
  - unfold count_paths in *. simpl foldl. rewrite IH, counter_get_incr.
    rewrite filter_cons. case_decide; simpl length; lia.
Qed.

Lemma run_incr_paths paths st :
  for_each (λ path, incr_diff_path (with_anonymous_array_indices path)) paths st
  = ([], {| procs := procs st; diff_counts := diff_counts st;
            diff_paths := count_paths paths (diff_paths st) |}, Ok ()).
Proof.
  revert st. induction paths as [|path paths IH]; intros st.
  - by destruct st.
  - simpl for_each. rewrite run_bind. unfold incr_diff_path at 1.
    rewrite run_bind. simpl. by rewrite IH.
Qed.

Lemma run_index {A} (l : list A) (i : nat) (x : A) (st : State) :
  l !! i = Some x → index l i st = ([], st, Ok x).
Proof. intros Hx. unfold index. by rewrite Hx. Qed.

Lemma run_index_raise {A} (l : list A) (i : nat) (st : State) :
  l !! i = None → index l i st = ([], st, Raise IndexError).
Proof. intros Hx. unfold index. by rewrite Hx. Qed.

Lemma run_incr_diff_count i c st :
  diff_counts st !! i = Some c →
  incr_diff_count i st
  = ([], {| procs := procs st;
            diff_counts := <[i := (c + 1)%Z]> (diff_counts st);
            diff_paths := diff_paths st |}, Ok ()).
Proof.
  intros Hc. unfold incr_diff_count. rewrite run_bind. simpl.
  rewrite run_bind, (run_index _ _ c) by done. done.
Qed.

Lemma run_incr_diff_count_raise i st :
  diff_counts st !! i = None →
  incr_diff_count i st = ([], st, Raise IndexError).
Proof.
  intros Hc. unfold incr_diff_count. rewrite run_bind. simpl.
  rewrite run_bind, run_index_raise by done. done.
Qed.

(** One entry of [diffs] when both indexings succeed. *)
Lemma run_record_diff names i diff name c st :
  names !! i = Some name →
  diff_counts st !! i = Some c →
  record_diff FLAGS names (i, diff) st
  = if diff_truthy diff then
      ([EvPrint (OutVersionName name);
        EvPrint (OutDiffReport diff (FLAGS_truncate FLAGS))],
       {| procs := procs st;
          diff_counts := <[i := (c + 1)%Z]> (diff_counts st);
          diff_paths := count_paths (all_diffs diff) (diff_paths st) |},
       Ok ())
    else ([], st, Ok ()).
Proof.
  intros Hname Hc. unfold record_diff.
  destruct (diff_truthy diff); [|done].
  rewrite run_bind, (run_index _ _ name) by done.
  rewrite run_bind. unfold print at 1.
  rewrite run_bind, (run_incr_diff_count _ c) by done.
  rewrite run_bind. unfold print at 1.
  rewrite run_incr_paths. done.
Qed.

(** One entry of [diffs] in any state: it makes no call, and touches
    no instance counter but its own. *)
Lemma record_diff_frame names i diff st evs st' r :
  record_diff FLAGS names (i, diff) st = (evs, st', r) →
  lockstep_trace evs = []
  ∧ quit_calls evs = [] ∧ close_calls evs = []
  ∧ procs st' = procs st
  ∧ length (diff_counts st') = length (diff_counts st)
  ∧ (∀ j, j ≠ i → diff_counts st' !! j = diff_counts st !! j).
Proof.
  destruct (names !! i) as [name|] eqn:Hname;
    [destruct (diff_counts st !! i) as [c|] eqn:Hc|].
  - rewrite (run_record_diff _ _ _ name c) by done.
    destruct (diff_truthy diff); intros [= <- <- <-]; simpl;
      repeat split; try done.
    + apply length_insert.
    + intros j Hj. by rewrite list_lookup_insert_ne.
  - unfold record_diff. destruct (diff_truthy diff).
    + rewrite run_bind, (run_index _ _ name) by done.
      rewrite run_bind. unfold print at 1.
      rewrite run_bind, run_incr_diff_count_raise by done.
      by intros [= <- <- <-].
    + by intros [= <- <- <-].
  - unfold record_diff. destruct (diff_truthy diff).
    + rewrite run_bind, run_index_raise by done. by intros [= <- <- <-].
    + by intros [= <- <- <-].
Qed.

Lemma record_loop_frame names (entries : list (nat * DiffResult)) st evs st' r :
  for_each (record_diff FLAGS names) entries st = (evs, st', r) →
  lockstep_trace evs = []
  ∧ quit_calls evs = [] ∧ close_calls evs = []
  ∧ procs st' = procs st
  ∧ length (diff_counts st') = length (diff_counts st)
  ∧ (∀ j, j ∉ entries.*1 → diff_counts st' !! j = diff_counts st !! j).
Proof.
  revert st evs st' r. induction entries as [|[i diff] entries IH];
    intros st evs st' r.
  - by intros [= <- <- <-].
  - rewrite for_each_cons, run_bind.
    destruct (record_diff FLAGS names (i, diff) st) as [[evs1 st1] [[]|e]] eqn:H1;
      apply record_diff_frame in H1 as (Ht & Hq & Hc & Hp & Hlen & Hdc).
    + destruct (for_each (record_diff FLAGS names) entries st1) as [[evs2 st2] r2] eqn:H2.
      apply IH in H2 as (Ht2 & Hq2 & Hc2 & Hp2 & Hlen2 & Hdc2).
      cbv beta iota. intros [= <- <- <-]. unfold lockstep_trace, quit_calls, close_calls in *.
      rewrite filter_app, !omap_app, Ht, Ht2, Hq, Hq2, Hc, Hc2.
      repeat split; try congruence.
      intros j Hj. simpl in Hj. rewrite not_elem_of_cons in Hj.
      destruct Hj as [Hji Hj]. rewrite Hdc2, Hdc; done.
    + intros [= <- <- <-]. repeat split; try done.
      intros j Hj. simpl in Hj. rewrite not_elem_of_cons in Hj.
      apply Hdc. tauto.
Qed.

(** The entries of a tick in which every peer has its counter and its
    name: no exception, each peer's counter grows by its gain, and each
    path's counter by the hits of the non-empty diffs. *)
Lemma record_loop_counts names (diffs : list DiffResult) (i : nat) st :
  i + length diffs ≤ length (diff_counts st) →
  i + length diffs ≤ length names →
  ∃ evs st',
    for_each (record_diff FLAGS names) (zip (seq i (length diffs)) diffs) st
    = (evs, st', Ok ())
    ∧ (∀ j, j < i → diff_counts st' !! j = diff_counts st !! j)
    ∧ (∀ j diff c, diffs !! j = Some diff →
         diff_counts st !! (i + j) = Some c →
         diff_counts st' !! (i + j) = Some (c + instance_gain diff)%Z)
    ∧ (∀ key, counter_get key (diff_paths st')
              = (counter_get key (diff_paths st)
                 + sum_Z (path_gain key <$> diffs))%Z).
Proof.
  revert i st. induction diffs as [|diff diffs IH]; intros i st Hdc Hnames.
  - eexists _, _. split; [done|]. split; [done|]. split; [done|].
    intros key. simpl. lia.
  - simpl in Hdc, Hnames.
    destruct (lookup_lt_is_Some_2 (diff_counts st) i) as [c Hc]; [lia|].
    destruct (lookup_lt_is_Some_2 names i) as [name Hname]; [lia|].
    simpl length. simpl seq. simpl zip. rewrite for_each_cons, run_bind.
    destruct (record_diff FLAGS names (i, diff) st) as [[evs1 st1] r1] eqn:H1.
    pose proof H1 as Hframe. apply record_diff_frame in Hframe
      as (_ & _ & _ & _ & Hlen1 & Hdc1).
    rewrite (run_record_diff _ _ _ name c) in H1 by done.
    assert (r1 = Ok ()
            ∧ diff_counts st1 !! i = Some (c + instance_gain diff)%Z
            ∧ ∀ key, counter_get key (diff_paths st1)
                     = (counter_get key (diff_paths st) + path_gain key diff)%Z)
      as (-> & Hi & Hpaths).
    { unfold instance_gain, path_gain, path_hits.
      destruct (diff_truthy diff); injection H1 as <- <- <-; simpl.
      - split; [done|]. split.
        + apply list_lookup_insert_eq. by eapply lookup_lt_Some.
        + intros key. apply counter_get_count_paths.
      - split; [done|]. split; [by rewrite Z.add_0_r|]. intros key. lia. }
    destruct (IH (S i) st1) as (evs2 & st2 & H2 & Hlow & Hcounts & Hpaths2);
      [lia..|].
    rewrite H2. eexists _, _. split; [done|]. split; [|split].
    + intros j Hj. rewrite Hlow by lia. apply Hdc1. lia.
    + intros [|j] diff' c' Hd Hc'; simpl in Hd.
      * injection Hd as <-. rewrite Nat.add_0_r in *.
        assert (c' = c) as -> by congruence.
        rewrite Hlow by lia. done.
      * replace (i + S j) with (S i + j) in * by lia.
        apply Hcounts; [done|]. rewrite Hdc1 by lia. done.
    + intros key. rewrite Hpaths2, Hpaths.
      change (sum_Z (path_gain key <$> diff :: diffs))
        with (path_gain key diff + sum_Z (path_gain key <$> diffs))%Z.
      lia.
Qed.

(** The dict comprehension: one [compute_diff] per peer, in order. *)
Lemma run_compute_diffs k (obs peers : list (ResponseObservation Fields)) o0 i st :
  obs !! 0 = Some o0 →
  collect (λ io : nat * ResponseObservation Fields,
             o0 ← index obs 0;
             diff ← call (EvComputeDiff k io.1) (Ok (compute_diff o0 io.2));
             ret (io.1, diff))
          (enumerate i peers) st
  = (EvComputeDiff k <$> seq i (length peers), st,
     Ok (zip (seq i (length peers)) (compute_diff o0 <$> peers))).
Proof.
  intros Ho0. revert i. induction peers as [|o peers IH]; intros i; [done|].
  change (enumerate i (o :: peers)) with ((i, o) :: enumerate (S i) peers).
  rewrite collect_cons, run_bind.
  rewrite run_bind, (run_index _ _ o0) by done.
  rewrite run_bind. unfold call at 1. simpl.
  rewrite run_bind, IH, run_ret. cbv beta iota. by rewrite app_nil_r.
Qed.

(** The diff step of a tick, in any state: its calls are the peers'
    [compute_diff]s in order, and the reference's counter is not
    touched. *)
Lemma diff_observations_frame names k obs st evs st' r :
  diff_observations FLAGS names k obs st = (evs, st', r) →
  lockstep_trace evs = EvComputeDiff k <$> seq 1 (length obs - 1)
  ∧ quit_calls evs = [] ∧ close_calls evs = []
  ∧ procs st' = procs st
  ∧ length (diff_counts st') = length (diff_counts st)
  ∧ diff_counts st' !! 0 = diff_counts st !! 0
  ∧ (∀ obs', r = Ok obs' → obs' = _clear_non_deterministic_fields <$> obs).
Proof.
  unfold diff_observations. destruct obs as [|o peers].
  - intros [= <- <- <-]. by repeat split; [intros ? [= <-]].
  - rewrite fmap_cons. simpl drop. rewrite !drop_0, run_bind.
    rewrite (run_compute_diffs _ _ _ (_clear_non_deterministic_fields o)) by done.
    rewrite length_fmap.
    replace (length (o :: peers) - 1) with (length peers) by (simpl; lia).
    set (diffs := zip (seq 1 (length peers)) _).
    assert (0 ∉ diffs.*1) as Hfresh.
    { unfold diffs. rewrite fst_zip by (rewrite length_seq, !length_fmap; lia).
      rewrite elem_of_seq. lia. }
    rewrite run_bind.
    destruct (existsb diff_truthy diffs.*2).
    + rewrite run_bind, (run_index _ _ (_clear_non_deterministic_fields o)) by done.
      rewrite run_bind. unfold print at 1.
      destruct (for_each (record_diff FLAGS names) diffs st) as [[evs1 st1] r1] eqn:H1.
      apply record_loop_frame in H1 as (Ht & Hq & Hc & Hp & Hlen & Hdc).
      destruct r1 as [[]|e]; cbv beta iota; intros [= <- <- <-];
        autorewrite with trace; rewrite lockstep_trace_cons; simpl;
        rewrite ?Ht, ?Hq, ?Hc; autorewrite with trace;
        repeat split; try done; try (by apply Hdc); by intros ? [= <-].
    + cbv beta iota. intros [= <- <- <-]. autorewrite with trace.
      by repeat split; [intros ? [= <-]].
Qed.

(** C5. In a tick whose observations are [o0 :: peers] (the reference
    first), with a counter and a name for every instance, the diff step
    raises nothing, and: the reference's counter is unchanged; the
    counter of each peer grows by one if its diff against the reference
    is non-empty and is unchanged otherwise; the counter of each
    anonymized path grows by the number of discrepancies with that path
    in the non-empty diffs of the tick. *)
Theorem diff_observations_counts names k o0 peers st :
  length (diff_counts st) = S (length peers) →
  length names = S (length peers) →
  let obs := _clear_non_deterministic_fields <$> o0 :: peers in
  let diffs := compute_diff (_clear_non_deterministic_fields o0)
                 <$> (_clear_non_deterministic_fields <$> peers) in
  ∃ evs st',
    diff_observations FLAGS names k (o0 :: peers) st = (evs, st', Ok obs)
    ∧ diff_counts st' !! 0 = diff_counts st !! 0
    ∧ (∀ i diff c, diffs !! i = Some diff →
         diff_counts st !! S i = Some c →
         diff_counts st' !! S i = Some (c + instance_gain diff)%Z)
    ∧ (∀ key, counter_get key (diff_paths st')
              = (counter_get key (diff_paths st)
                 + sum_Z (path_gain key <$> diffs))%Z).
Proof.
  intros Hdc Hnames obs diffs.
  destruct (diff_observations FLAGS names k (o0 :: peers) st)
    as [[evs st'] r] eqn:Hrun.
  pose proof (diff_observations_frame _ _ _ _ _ _ _ Hrun)
    as (_ & _ & _ & _ & _ & Hzero & _).
  revert Hrun. unfold diff_observations.
  rewrite fmap_cons. simpl drop. rewrite !drop_0, run_bind.
  rewrite (run_compute_diffs _ _ _ (_clear_non_deterministic_fields o0)) by done.
  fold diffs. rewrite run_bind.
  assert (length (_clear_non_deterministic_fields <$> peers) = length diffs)
    as -> by (unfold diffs; by rewrite !length_fmap).
  assert (length diffs = length peers) as Hlen
    by (unfold diffs; by rewrite !length_fmap).
  destruct (record_loop_counts names diffs 1 st)
    as (evs1 & st1 & H1 & _ & Hcounts & Hpaths); [lia..|].
  rewrite snd_zip by (rewrite length_seq; lia).
  destruct (existsb diff_truthy diffs) eqn:Hany.
  - rewrite run_bind, (run_index _ _ (_clear_non_deterministic_fields o0)) by done.
    rewrite run_bind. unfold print at 1. rewrite H1.
    cbv beta iota. intros [= <- <- <-].
    eexists _, _. split; [done|]. split; [done|]. split; [apply Hcounts|done].
  - cbv beta iota. intros [= <- <- <-].
    assert (∀ diff, diff ∈ diffs → diff_truthy diff = false) as Hnone.
    { intros diff Hin. destruct (diff_truthy diff) eqn:Ht; [|done].
      assert (existsb diff_truthy diffs = true) as Hex; [|congruence].
      apply existsb_exists. exists diff. split; [|done].
      by apply list_elem_of_In. }
    eexists _, _. split; [done|]. split; [done|]. split.
    + intros i diff c Hd Hc. unfold instance_gain.
      rewrite Hnone by (by eapply list_elem_of_lookup_2).
      by rewrite Z.add_0_r.
    + intros key.
      assert (sum_Z (path_gain key <$> diffs) = 0%Z) as ->; [|lia].
      clear -Hnone. induction diffs as [|d diffs IH]; [done|].
      change (sum_Z (path_gain key <$> d :: diffs))
        with (path_gain key d + sum_Z (path_gain key <$> diffs))%Z.
      rewrite IH by (intros d' Hd'; apply Hnone; by right).
      unfold path_gain. rewrite Hnone by left. done.
Qed.

End Aggregation.

(** ** One iteration of the observation loop *)

Section Tick.

Context {Fields : Type} `{!DiffEngine Fields}.
Variable FLAGS : Flags.
Variable w : World Fields.

Lemma for_each_call_spec (ev : nat → Event) (ans : nat → Res unit) l st evs st' r :
  for_each (λ c, call (ev c) (ans c)) l st = (evs, st', r) →
  st' = st
  ∧ evs `prefix_of` (ev <$> l)
  ∧ (∀ u, r = Ok u → evs = ev <$> l).
Proof.
  destruct (for_each_call_prefix ev ans l st) as (evs0 & r0 & -> & Hpre & Hall).
  by intros [= <- <- <-].
Qed.

Lemma collect_call_spec {B} (ev : nat → Event) (ans : nat → Res B) l st evs st' r :
  collect (λ c, call (ev c) (ans c)) l st = (evs, st', r) →
  st' = st
  ∧ evs `prefix_of` (ev <$> l)
  ∧ (∀ ys, r = Ok ys → evs = ev <$> l ∧ Forall2 (λ c y, ans c = Ok y) l ys).
Proof.
  revert evs st' r. induction l as [|c l IH]; intros evs st' r.
  - intros [= <- <- <-]. split; [done|]. split; [done|].
    intros ys [= <-]. by split.
  - rewrite collect_cons, run_bind. unfold call at 1.
    destruct (ans c) as [y|e] eqn:Hc.
    + rewrite run_bind.
      destruct (collect (λ c, call (ev c) (ans c)) l st) as [[evs1 st1] r1].
      destruct (IH _ _ _ eq_refl) as (-> & Hpre & Hall).
      destruct r1 as [ys|e]; rewrite ?run_ret; cbv beta iota;
        intros [= <- <- <-]; autorewrite with trace.
      * destruct (Hall ys) as [-> HF]; [done|].
        split; [done|]. split; [done|]. intros ? [= <-]. split; [done|].
        by constructor.
      * split; [done|]. split; [by apply prefix_cons|done].
    + intros [= <- <- <-]. split; [done|]. split; [|done].
      apply prefix_cons, prefix_nil.
Qed.

Lemma quit_calls_prefix (evs all : list Event) :
  evs `prefix_of` all → quit_calls all = [] → quit_calls evs = [].
Proof.
  intros [rest ->]. rewrite quit_calls_app. by intros [? ?]%app_eq_nil.
Qed.

Lemma close_calls_prefix (evs all : list Event) :
  evs `prefix_of` all → close_calls all = [] → close_calls evs = [].
Proof.
  intros [rest ->]. rewrite close_calls_app. by intros [? ?]%app_eq_nil.
Qed.

Lemma quit_calls_steps k (l : list nat) : quit_calls (EvStep k <$> l) = [].
Proof. by induction l. Qed.

Lemma close_calls_steps k (l : list nat) : close_calls (EvStep k <$> l) = [].
Proof. by induction l. Qed.

Lemma quit_calls_observes k (l : list nat) : quit_calls (EvObserve k <$> l) = [].
Proof. by induction l. Qed.

Lemma close_calls_observes k (l : list nat) : close_calls (EvObserve k <$> l) = [].
Proof. by induction l. Qed.

(** What holds of one iteration in any state and however it ends. *)
Lemma tick_spec names ctrls k st evs st' r :
  tick FLAGS w names ctrls k st = (evs, st', r) →
  lockstep_trace evs `prefix_of` lockstep_calls (FLAGS_diff FLAGS) ctrls k
  ∧ quit_calls evs = [] ∧ close_calls evs = []
  ∧ procs st' = procs st
  ∧ length (diff_counts st') = length (diff_counts st)
  ∧ diff_counts st' !! 0 = diff_counts st !! 0
  ∧ (FLAGS_diff FLAGS = false → st' = st)
  ∧ (∀ b, r = Ok b →
       lockstep_trace evs = lockstep_calls (FLAGS_diff FLAGS) ctrls k
       ∧ ∃ c0 o0, ctrls !! 0 = Some c0
                  ∧ w_observe w k c0 = Ok o0
                  ∧ b = game_over o0).
Proof.
  unfold tick, lockstep_calls. rewrite run_bind.
  destruct (for_each _ ctrls st) as [[evs1 st1] r1] eqn:H1.
  apply for_each_call_spec in H1 as (-> & Hpre1 & Hall1).
  destruct r1 as [[]|e]; cycle 1.
  { intros [= <- <- <-].
    rewrite (lockstep_trace_prefix _ _ Hpre1) by apply lockstep_trace_steps.
    rewrite (quit_calls_prefix _ _ Hpre1) by apply quit_calls_steps.
    rewrite (close_calls_prefix _ _ Hpre1) by apply close_calls_steps.
    split_and!; try done. by apply prefix_app_r. }
  rewrite (Hall1 () eq_refl). clear Hpre1 Hall1 evs1.
  rewrite run_bind.
  destruct (collect _ ctrls st) as [[evs2 st2] r2] eqn:H2.
  apply collect_call_spec in H2 as (-> & Hpre2 & Hall2).
  destruct r2 as [obs|e]; cycle 1.
  { intros [= <- <- <-]. autorewrite with trace.
    rewrite (lockstep_trace_prefix _ _ Hpre2) by apply lockstep_trace_observes.
    rewrite (quit_calls_prefix _ _ Hpre2) by apply quit_calls_observes.
    rewrite (close_calls_prefix _ _ Hpre2) by apply close_calls_observes.
    rewrite quit_calls_steps, close_calls_steps.
    split_and!; try done. apply prefix_app, prefix_app_r. done. }
  destruct (Hall2 obs eq_refl) as [-> Hobs]. clear Hpre2 Hall2.
  assert (length obs - 1 = length ctrls - 1) as Hlen
    by (by rewrite (Forall2_length _ _ _ Hobs)).
  assert (∀ o, obs !! 0 = Some o →
            ∃ c0, ctrls !! 0 = Some c0 ∧ w_observe w k c0 = Ok o) as Hhead.
  { intros o Ho. destruct Hobs as [|c0 o' ctrls obs Hc0 _]; [done|].
    injection Ho as ->. by exists c0. }
  rewrite run_bind. destruct (FLAGS_diff FLAGS).
  - destruct (diff_observations FLAGS names k obs st) as [[evs3 st3] r3] eqn:H3.
    apply diff_observations_frame in H3
      as (Ht & Hq & Hc & Hp & Hlen3 & Hzero & Hres).
    rewrite Hlen in Ht.
    destruct r3 as [obs'|e]; cycle 1.
    { intros [= <- <- <-]. autorewrite with trace.
      rewrite Ht, Hq, Hc, quit_calls_steps, close_calls_steps,
        quit_calls_observes, close_calls_observes.
      split_and!; done. }
    rewrite (Hres obs' eq_refl). rewrite run_bind.
    destruct (obs !! 0) as [o0|] eqn:Ho0.
    + rewrite (run_index _ _ (_clear_non_deterministic_fields o0))
        by (by rewrite list_lookup_fmap, Ho0).
      rewrite run_ret. cbv beta iota. intros [= <- <- <-].
      autorewrite with trace.
      rewrite Ht, Hq, Hc, quit_calls_steps, close_calls_steps,
        quit_calls_observes, close_calls_observes.
      split_and!; try done. intros b [= <-]. split; [done|].
      destruct (Hhead o0 eq_refl) as (c0 & Hc0 & Hw). by exists c0, o0.
    + rewrite run_index_raise by (by rewrite list_lookup_fmap, Ho0).
      intros [= <- <- <-]. autorewrite with trace.
      rewrite Ht, Hq, Hc, quit_calls_steps, close_calls_steps,
        quit_calls_observes, close_calls_observes.
      split_and!; done.
  - rewrite run_ret. cbv beta iota. rewrite run_bind.
    destruct (obs !! 0) as [o0|] eqn:Ho0.
    + rewrite (run_index _ _ o0) by done.
      rewrite run_ret. cbv beta iota. intros [= <- <- <-].
      autorewrite with trace.
      rewrite quit_calls_steps, close_calls_steps,
        quit_calls_observes, close_calls_observes.
      split_and!; try done. intros b [= <-]. split; [done|].
      destruct (Hhead o0 eq_refl) as (c0 & Hc0 & Hw). by exists c0, o0.
    + rewrite run_index_raise by done.
      intros [= <- <- <-]. autorewrite with trace.
      rewrite quit_calls_steps, close_calls_steps,
        quit_calls_observes, close_calls_observes.
      split_and!; done.
Qed.

End Tick.

(** ** The observation loop *)

Section Loop.

Context {Fields : Type} `{!DiffEngine Fields}.
Variable FLAGS : Flags.
Variable w : World Fields.

Lemma iterations_run_le over start n : iterations_run over start n ≤ n.
Proof.
  revert start. induction n as [|n IH]; intros start; simpl; [lia|].
  destruct (over start); [lia|]. specialize (IH (S start)). lia.
Qed.

Lemma iterations_run_stop over start n t :
  over t = true → start ≤ t → iterations_run over start n ≤ S t - start.
Proof.
  intros Ht. revert start. induction n as [|n IH]; intros start Hle; simpl; [lia|].
  destruct (over start) eqn:Hs; [lia|].
  assert (start ≠ t) by congruence.
  specialize (IH (S start)). lia.
Qed.

Lemma iterations_run_first over start n t :
  over t = true → start ≤ t < start + n →
  (∀ t', start ≤ t' < t → over t' = false) →
  iterations_run over start n = S t - start.
Proof.
  intros Ht. revert start. induction n as [|n IH]; intros start Hle Hbefore; [lia|].
  simpl. destruct (decide (start = t)) as [->|Hne].
  - rewrite Ht. lia.
  - rewrite Hbefore by lia. rewrite (IH (S start)); [lia|lia|].
    intros t' Ht'. apply Hbefore. lia.
Qed.

Lemma bind_seq_prefix {A} (f : nat → list A) start m m' :
  m ≤ m' → (seq start m ≫= f) `prefix_of` (seq start m' ≫= f).
Proof.
  intros Hle. replace m' with (m + (m' - m)) by lia.
  rewrite seq_app, bind_app. by apply prefix_app_r.
Qed.

Lemma elem_of_lockstep_calls diff ctrls k (ev : Event) :
  ev ∈ lockstep_calls diff ctrls k → iteration ev = Some k.
Proof.
  unfold lockstep_calls. rewrite !elem_of_app.
  intros [H|[H|H]].
  - apply list_elem_of_fmap in H as (c & -> & _). done.
  - apply list_elem_of_fmap in H as (c & -> & _). done.
  - destruct diff; [|by apply elem_of_nil in H].
    apply list_elem_of_fmap in H as (c & -> & _). done.
Qed.

Lemma iteration_in_range diff ctrls start m (evs : list Event) ev k :
  lockstep_trace evs `prefix_of` (seq start m ≫= lockstep_calls diff ctrls) →
  ev ∈ evs → iteration ev = Some k → start ≤ k < start + m.
Proof.
  intros [rest Hpre] Hev Hk.
  assert (ev ∈ seq start m ≫= lockstep_calls diff ctrls) as Hin.
  { rewrite Hpre, elem_of_app. left. unfold lockstep_trace.
    apply list_elem_of_filter. split; [|done].
    unfold lockstep_event. by rewrite Hk. }
  apply list_elem_of_bind in Hin as (k' & Hin & Hk').
  apply elem_of_lockstep_calls in Hin. apply elem_of_seq in Hk'.
  assert (k' = k) as -> by congruence. done.
Qed.

(** The loop in any state, however it ends: its calls are an initial
    part of the lockstep order of its [n] iterations, it never quits or
    closes an instance, and it leaves [procs] and the reference's
    counter alone. *)
Lemma for_range_tick_frame names ctrls start n st evs st' r :
  for_range (tick FLAGS w names ctrls) start n st = (evs, st', r) →
  lockstep_trace evs
    `prefix_of` (seq start n ≫= lockstep_calls (FLAGS_diff FLAGS) ctrls)
  ∧ quit_calls evs = [] ∧ close_calls evs = []
  ∧ procs st' = procs st
  ∧ length (diff_counts st') = length (diff_counts st)
  ∧ diff_counts st' !! 0 = diff_counts st !! 0
  ∧ (FLAGS_diff FLAGS = false → st' = st).
Proof.
  revert start st evs st' r. induction n as [|n IH]; intros start st evs st' r.
  - intros [= <- <- <-]. split_and!; done.
  - rewrite for_range_S, run_bind.
    destruct (tick FLAGS w names ctrls start st) as [[evs1 st1] r1] eqn:H1.
    apply tick_spec in H1 as (Hpre & Hq & Hc & Hp & Hlen & Hzero & Hsame & Hok).
    change (seq start (S n) ≫= lockstep_calls (FLAGS_diff FLAGS) ctrls)
      with (lockstep_calls (FLAGS_diff FLAGS) ctrls start
            ++ (seq (S start) n ≫= lockstep_calls (FLAGS_diff FLAGS) ctrls)).
    destruct r1 as [[]|e].
    + rewrite run_ret. cbv beta iota. intros [= <- <- <-].
      autorewrite with trace. split_and!; try done. by apply prefix_app_r.
    + destruct (for_range (tick FLAGS w names ctrls) (S start) n st1)
        as [[evs2 st2] r2] eqn:H2.
      apply IH in H2 as (Hpre2 & Hq2 & Hc2 & Hp2 & Hlen2 & Hzero2 & Hsame2).
      cbv beta iota. intros [= <- <- <-]. autorewrite with trace.
      destruct (Hok false eq_refl) as [-> _].
      rewrite Hq, Hq2, Hc, Hc2. split_and!; try done; try congruence.
      * by apply prefix_app.
      * intros Hd. rewrite Hsame2, Hsame; done.
    + intros [= <- <- <-]. split_and!; try done. by apply prefix_app_r.
Qed.

(** The loop over controllers whose first is [c0]: it goes through the
    iterations up to the first in which the reference's observation
    carries a player result, and through all of them if it returns. *)
Lemma for_range_tick_spec names ctrls c0 start n st evs st' r :
  ctrls !! 0 = Some c0 →
  for_range (tick FLAGS w names ctrls) start n st = (evs, st', r) →
  lockstep_trace evs
    `prefix_of` (seq start (iterations_run (reference_over w c0) start n)
                   ≫= lockstep_calls (FLAGS_diff FLAGS) ctrls)
  ∧ (∀ u, r = Ok u →
       lockstep_trace evs
       = seq start (iterations_run (reference_over w c0) start n)
           ≫= lockstep_calls (FLAGS_diff FLAGS) ctrls).
Proof.
  intros Hc0. revert start st evs st' r.
  induction n as [|n IH]; intros start st evs st' r.
  - intros [= <- <- <-]. split; [done|]. by intros ? _.
  - rewrite for_range_S, run_bind.
    destruct (tick FLAGS w names ctrls start st) as [[evs1 st1] r1] eqn:H1.
    apply tick_spec in H1 as (Hpre & _ & _ & _ & _ & _ & _ & Hok).
    simpl iterations_run.
    destruct r1 as [b|e].
    + destruct (Hok b eq_refl) as [Hfull (c0' & o0 & Hc0' & Hobs & ->)].
      assert (c0' = c0) as -> by congruence.
      unfold reference_over at 1 3. rewrite Hobs.
      destruct (game_over o0).
      * rewrite run_ret. cbv beta iota. intros [= <- <- <-].
        autorewrite with trace. rewrite Hfull. simpl.
        autorewrite with trace. split; [done|]. by intros ? _.
      * destruct (for_range (tick FLAGS w names ctrls) (S start) n st1)
          as [[evs2 st2] r2] eqn:H2.
        apply IH in H2 as (Hpre2 & Hok2).
        cbv beta iota. intros [= <- <- <-]. autorewrite with trace.
        rewrite Hfull.
        change (seq start (S ?m) ≫= ?f) with (f start ++ (seq (S start) m ≫= f)).
        split; [by apply prefix_app|]. intros u Hu. by rewrite (Hok2 u Hu).
    + intros [= <- <- <-]. split; [|done].
      destruct (reference_over w c0 start);
        change (seq start (S ?m) ≫= ?f) with (f start ++ (seq (S start) m ≫= f));
        by apply prefix_app_r.
Qed.

End Loop.

(** ** Termination and order of the observation loop *)

Section LoopTheorems.

Context {Fields : Type} `{!DiffEngine Fields}.
Variable FLAGS : Flags.
Variable w : World Fields.

(** C4. The observation loop over controllers whose first, the
    reference, is [c0]: every call it makes belongs to an iteration
    below [FLAGS.count]; when the reference's observation of iteration
    [t] carries a player result, no call belongs to an iteration after
    [t]; and when the loop returns and [t] is the first such iteration
    within the budget, its calls are exactly the complete iterations
    [0..t], the [compute_diff] of every peer in iteration [t]
    included when diffing is on. *)
Theorem observation_loop_terminates names ctrls c0 st evs st' r :
  ctrls !! 0 = Some c0 →
  observation_loop FLAGS w names ctrls st = (evs, st', r) →
  (∀ ev k, ev ∈ evs → iteration ev = Some k → k < Z.to_nat (FLAGS_count FLAGS))
  ∧ (∀ t o, w_observe w t c0 = Ok o → game_over o = true →
       ∀ ev k, ev ∈ evs → iteration ev = Some k → k ≤ t)
  ∧ (∀ t o, r = Ok () → t < Z.to_nat (FLAGS_count FLAGS) →
       w_observe w t c0 = Ok o → game_over o = true →
       (∀ t', t' < t → reference_over w c0 t' = false) →
       lockstep_trace evs
       = seq 0 (S t) ≫= lockstep_calls (FLAGS_diff FLAGS) ctrls).
Proof.
  intros Hc0 Hrun. unfold observation_loop in Hrun.
  pose proof (for_range_tick_frame _ _ _ _ _ _ _ _ _ _ Hrun) as (Hbudget & _).
  pose proof (for_range_tick_spec _ _ _ _ _ _ _ _ _ _ _ Hc0 Hrun) as (Hpre & Hok).
  split_and!.
  - intros ev k Hev Hk.
    pose proof (iteration_in_range _ _ _ _ _ _ _ Hbudget Hev Hk). lia.
  - intros t o Ho Hover ev k Hev Hk.
    assert (reference_over w c0 t = true) as Ht
      by (unfold reference_over; by rewrite Ho).
    pose proof (iterations_run_stop (reference_over w c0) 0
                  (Z.to_nat (FLAGS_count FLAGS)) t Ht) as Hstop.
    eassert (lockstep_trace evs `prefix_of` _) as Hpre'.
    { etrans; [exact Hpre|]. apply (bind_seq_prefix _ 0 _ (S t)). lia. }
    pose proof (iteration_in_range _ _ _ _ _ _ _ Hpre' Hev Hk). lia.
  - intros t o -> Hlt Ho Hover Hbefore.
    assert (reference_over w c0 t = true) as Ht
      by (unfold reference_over; by rewrite Ho).
    rewrite (Hok () eq_refl).
    rewrite (iterations_run_first _ 0 _ t Ht) by (try lia; intros; apply Hbefore; lia).
    by rewrite Nat.sub_0_r.
Qed.

(** C6. The calls of an iteration that completes are, in this order:
    the step of every instance in instance order, then the observation
    of every instance in instance order, then (when diffing is on) the
    [compute_diff] of peer 1, 2, ... against the reference; an
    iteration that raises has made an initial part of them.  The calls
    of the whole loop are an initial part of these sequences put one
    after the other for the iterations [0, 1, ...]. *)
Theorem lockstep_order names ctrls st k :
  lockstep_trace (observation_loop FLAGS w names ctrls st).1.1
    `prefix_of` (seq 0 (Z.to_nat (FLAGS_count FLAGS))
                   ≫= lockstep_calls (FLAGS_diff FLAGS) ctrls)
  ∧ match tick FLAGS w names ctrls k st with
    | (evs, _, Ok _) =>
        lockstep_trace evs = lockstep_calls (FLAGS_diff FLAGS) ctrls k
    | (evs, _, Raise _) =>
        lockstep_trace evs `prefix_of` lockstep_calls (FLAGS_diff FLAGS) ctrls k
    end.
Proof.
  split.
  - unfold observation_loop.
    destruct (for_range _ 0 _ st) as [[evs st'] r] eqn:Hrun.
    by apply for_range_tick_frame in Hrun as (Hbudget & _).
  - destruct (tick FLAGS w names ctrls k st) as [[evs st'] r] eqn:Hrun.
    apply tick_spec in Hrun as (Hpre & _ & _ & _ & _ & _ & _ & Hok).
    destruct r as [b|e]; [|done]. by destruct (Hok b eq_refl).
Qed.

End LoopTheorems.

(** C4, on a run: three instances, a budget of 10 observations, the game
    over in iteration 2. *)
Lemma observation_loop_terminates_witness :
  let run_loop :=
    observation_loop (Sample.flags true 10) (Sample.steady 2) ["4.10"; "4.11"; "4.12"]
      [0; 1; 2]
      {| procs := [0; 1; 2]; diff_counts := [0; 0; 0]%Z; diff_paths := [] |} in
  (∀ ev k, ev ∈ run_loop.1.1 → iteration ev = Some k → k < 10)
  ∧ (∀ ev k, ev ∈ run_loop.1.1 → iteration ev = Some k → k ≤ 2)
  ∧ lockstep_trace run_loop.1.1 = seq 0 3 ≫= lockstep_calls true [0; 1; 2].
Proof.
  intros run_loop.
  destruct (observation_loop_terminates (Sample.flags true 10) (Sample.steady 2)
              ["4.10"; "4.11"; "4.12"] [0; 1; 2] 0
              {| procs := [0; 1; 2]; diff_counts := [0; 0; 0]%Z; diff_paths := [] |}
              run_loop.1.1 run_loop.1.2 run_loop.2 eq_refl eq_refl)
    as (Hbudget & Hstop & Hfull).
  split; [exact Hbudget|]. split.
  - eapply (Hstop 2); reflexivity.
  - eapply (Hfull 2); [reflexivity|simpl; lia|reflexivity|reflexivity|].
    intros t' Ht'. assert (t' = 0 ∨ t' = 1) as [-> | ->] by lia; reflexivity.
Defined.

(** ** The report *)

Section Report.

Context {Fields : Type} `{!DiffEngine Fields}.
Variable FLAGS : Flags.

Lemma for_each_print {A} (f : A → Output) (l : list A) (st : State) :
  for_each (λ x, print (f x)) l st = (EvPrint <$> (f <$> l), st, Ok ()).
Proof.
  induction l as [|x l IH]; [done|].
  rewrite for_each_cons, run_bind. unfold print at 1. by rewrite IH.
Qed.

Lemma for_each_print_two {A} (f g : A → Output) (l : list A) (st : State) :
  for_each (λ x, print (f x) ;; print (g x)) l st
  = (EvPrint <$> (l ≫= λ x, [f x; g x]), st, Ok ()).
Proof.
  induction l as [|x l IH]; [done|].
  rewrite for_each_cons, run_bind, run_bind. unfold print at 1 2.
  cbv beta iota. by rewrite IH.
Qed.

(** The report never raises and leaves the locals alone. *)
Lemma run_report versions st :
  report FLAGS versions st
  = (EvPrint <$> report_lines FLAGS versions st, st, Ok ()).
Proof.
  unfold report, report_lines. rewrite run_bind.
  destruct (FLAGS_diff FLAGS).
  - rewrite run_bind. unfold print at 1.
    rewrite run_bind. unfold get at 1. cbv beta iota.
    rewrite run_bind, for_each_print.
    rewrite run_bind. unfold print at 1.
    rewrite run_bind. unfold print at 1.
    rewrite run_bind, for_each_print. unfold print at 1.
    rewrite run_bind. unfold print at 1.
    rewrite (for_each_print_two (λ iv, OutBinary iv.2) (λ iv, OutTimer iv.1)).
    cbv beta iota. f_equal. f_equal.
    rewrite !fmap_app, !fmap_cons, !fmap_app. simpl.
    by rewrite !fmap_app.
  - rewrite run_ret. rewrite run_bind. unfold print at 1.
    rewrite (for_each_print_two (λ iv, OutBinary iv.2) (λ iv, OutTimer iv.1)).
    done.
Qed.

(** *** [most_common] *)

Lemma insert_by_count_perm {K} (x : K * Z) (l : list (K * Z)) :
  insert_by_count x l ≡ₚ x :: l.
Proof.
  induction l as [|y l IH]; [done|]. simpl.
  case_bool_decide; [done|]. rewrite IH. apply Permutation_swap.
Qed.

Lemma sorted_by_count_perm {K} (c : Counter K) : sorted_by_count c ≡ₚ c.
Proof.
  induction c as [|x c IH]; [done|]. simpl.
  by rewrite insert_by_count_perm, IH.
Qed.

Lemma insert_by_count_sorted {K} (x : K * Z) (l : list (K * Z)) :
  StronglySorted by_count_desc l →
  StronglySorted by_count_desc (insert_by_count x l).
Proof.
  induction 1 as [|y l Hl IH Hy]; simpl.
  - repeat constructor.
  - case_bool_decide as Hxy.
    + constructor; [by constructor|]. constructor; [done|].
      eapply Forall_impl; [exact Hy|]. unfold by_count_desc. intros z Hz. lia.
    + constructor; [done|]. rewrite insert_by_count_perm.
      constructor; [|done]. unfold by_count_desc. lia.
Qed.

Lemma sorted_by_count_sorted {K} (c : Counter K) :
  StronglySorted by_count_desc (sorted_by_count c).
Proof.
  induction c as [|x c IH]; [constructor|]. by apply insert_by_count_sorted.
Qed.

(** Entries of equal count keep the order in which the counter holds
    them. *)
Lemma insert_by_count_stable {K} (n : Z) (x : K * Z) (l : list (K * Z)) :
  filter (λ y, y.2 = n) (insert_by_count x l)
  = filter (λ y, y.2 = n) (x :: l).
Proof.
  induction l as [|y l IH]; [done|]. simpl insert_by_count.
  case_bool_decide as Hxy; [done|].
  rewrite filter_cons, IH, !filter_cons.
  repeat case_decide; try done. lia.
Qed.

Lemma sorted_by_count_stable {K} (n : Z) (c : Counter K) :
  filter (λ y, y.2 = n) (sorted_by_count c) = filter (λ y, y.2 = n) c.
Proof.
  induction c as [|x c IH]; [done|]. simpl sorted_by_count.
  by rewrite insert_by_count_stable, !filter_cons, IH.
Qed.

Lemma binary_lines_app (outs1 outs2 : list Output) :
  binary_lines (outs1 ++ outs2) = binary_lines outs1 ++ binary_lines outs2.
Proof. apply omap_app. Qed.

Lemma path_lines_app (outs1 outs2 : list Output) :
  path_lines (outs1 ++ outs2) = path_lines outs1 ++ path_lines outs2.
Proof. apply omap_app. Qed.

Lemma binary_lines_cons (o : Output) outs :
  binary_lines (o :: outs)
  = match o with
    | OutBinaryCount c v => (v, c) :: binary_lines outs
    | _ => binary_lines outs
    end.
Proof. by destruct o. Qed.

Lemma path_lines_cons (o : Output) outs :
  path_lines (o :: outs)
  = match o with
    | OutPathCount c p => (p, c) :: path_lines outs
    | _ => path_lines outs
    end.
Proof. by destruct o. Qed.

Lemma binary_lines_binaries (l : list (string * Z)) :
  binary_lines ((λ vc, OutBinaryCount vc.2 vc.1) <$> l) = l.
Proof.
  induction l as [|[v c] l IH]; [done|].
  rewrite fmap_cons, binary_lines_cons. by rewrite IH.
Qed.

Lemma binary_lines_paths (l : list (ProtoPath * Z)) :
  binary_lines ((λ vc, OutPathCount vc.2 vc.1) <$> l) = [].
Proof.
  induction l as [|[p c] l IH]; [done|]. by rewrite fmap_cons, binary_lines_cons.
Qed.

Lemma binary_lines_timings (l : list (nat * string)) :
  binary_lines (l ≫= λ iv, [OutBinary iv.2; OutTimer iv.1]) = [].
Proof. induction l as [|[i v] l IH]; [done|]. exact IH. Qed.

Lemma path_lines_binaries (l : list (string * Z)) :
  path_lines ((λ vc, OutBinaryCount vc.2 vc.1) <$> l) = [].
Proof.
  induction l as [|[v c] l IH]; [done|]. by rewrite fmap_cons, path_lines_cons.
Qed.

Lemma path_lines_paths (l : list (ProtoPath * Z)) :
  path_lines ((λ vc, OutPathCount vc.2 vc.1) <$> l) = l.
Proof.
  induction l as [|[p c] l IH]; [done|].
  rewrite fmap_cons, path_lines_cons. by rewrite IH.
Qed.

Lemma path_lines_timings (l : list (nat * string)) :
  path_lines (l ≫= λ iv, [OutBinary iv.2; OutTimer iv.1]) = [].
Proof. induction l as [|[i v] l IH]; [done|]. exact IH. Qed.

Lemma binary_lines_report versions st :
  FLAGS_diff FLAGS = true →
  binary_lines (report_lines FLAGS versions st) = zip versions (diff_counts st).
Proof.
  intros Hdiff. unfold report_lines. rewrite Hdiff. cbv beta iota.
  repeat (rewrite binary_lines_app || rewrite binary_lines_cons).
  rewrite binary_lines_binaries, binary_lines_paths, binary_lines_timings.
  by rewrite !app_nil_r.
Qed.

Lemma path_lines_report versions st :
  FLAGS_diff FLAGS = true →
  path_lines (report_lines FLAGS versions st) = most_common 100 (diff_paths st).
Proof.
  intros Hdiff. unfold report_lines. rewrite Hdiff. cbv beta iota.
  repeat (rewrite path_lines_app || rewrite path_lines_cons).
  rewrite path_lines_binaries, path_lines_paths, path_lines_timings.
  by rewrite !app_nil_r.
Qed.

Lemma printed_prints (outs : list Output) : printed (EvPrint <$> outs) = outs.
Proof. induction outs as [|o outs IH]; [done|]. simpl. f_equal. exact IH. Qed.

(** C9, as the code has it. With diffing on, the report printed from
    the counters [st] lists the paths by count in descending order, the
    100 largest at most: the lines are the first 100 of the counter's
    entries sorted by count, every entry left out has a count no larger
    than any listed, and entries of equal count stand in the order of
    their first occurrence.  The instances are not ranked: the
    per-binary lines are [zip(versions, diff_counts)], one line per
    instance in instance order, line [i] bearing the counter of
    instance [i] whatever the counts are. *)
Theorem report_ranking versions st :
  FLAGS_diff FLAGS = true →
  ∃ evs,
    report FLAGS versions st = (evs, st, Ok ())
    ∧ StronglySorted by_count_desc (path_lines (printed evs))
    ∧ length (path_lines (printed evs)) = 100 `min` length (diff_paths st)
    ∧ (∃ rest, path_lines (printed evs) ++ rest ≡ₚ diff_paths st
               ∧ ∀ x y, x ∈ path_lines (printed evs) → y ∈ rest →
                        by_count_desc x y)
    ∧ (∀ n, filter (λ y, y.2 = n) (path_lines (printed evs))
              `prefix_of` filter (λ y, y.2 = n) (diff_paths st))
    ∧ (∀ i v c, versions !! i = Some v → diff_counts st !! i = Some c →
                binary_lines (printed evs) !! i = Some (v, c))
    ∧ length (binary_lines (printed evs))
      = length versions `min` length (diff_counts st)
    ∧ binary_lines (printed evs) = zip versions (diff_counts st).
Proof.
  intros Hdiff. eexists. split; [apply run_report|].
  rewrite printed_prints, path_lines_report, binary_lines_report by done.
  unfold most_common.
  pose proof (sorted_by_count_sorted (diff_paths st)) as Hsorted.
  rewrite <- (take_drop 100 (sorted_by_count (diff_paths st))) in Hsorted.
  split_and!.
  - by eapply StronglySorted_app_1_l.
  - rewrite length_take. f_equal.
    by rewrite (Permutation_length (sorted_by_count_perm _)).
  - exists (drop 100 (sorted_by_count (diff_paths st))). split.
    + rewrite take_drop. apply sorted_by_count_perm.
    + intros x y Hx Hy. by eapply StronglySorted_app_1_elem_of.
  - intros n. rewrite <- (sorted_by_count_stable n (diff_paths st)).
    rewrite <- (take_drop 100 (sorted_by_count (diff_paths st))) at 2.
    rewrite filter_app. by apply prefix_app_r.
  - intros i v c Hv Hc. by apply lookup_zip_Some.
  - by rewrite length_zip.
  - done.
Qed.

End Report.

(** ** The whole program *)

Section Main.

Context {Fields : Type} `{!DiffEngine Fields}.
Variable FLAGS : Flags.
Variable w : World Fields.

Lemma quit_calls_teardown (ps : list nat) : quit_calls (teardown_calls ps) = ps.
Proof. induction ps as [|p ps IH]; [done|]. simpl. f_equal. exact IH. Qed.

Lemma close_calls_teardown (ps : list nat) : close_calls (teardown_calls ps) = ps.
Proof. induction ps as [|p ps IH]; [done|]. simpl. f_equal. exact IH. Qed.

Lemma quit_calls_prints (outs : list Output) : quit_calls (EvPrint <$> outs) = [].
Proof. by induction outs. Qed.

Lemma close_calls_prints (outs : list Output) : close_calls (EvPrint <$> outs) = [].
Proof. by induction outs. Qed.

Lemma quit_calls_start_replays (l : list nat) : quit_calls (EvStartReplay <$> l) = [].
Proof. by induction l. Qed.

Lemma close_calls_start_replays (l : list nat) : close_calls (EvStartReplay <$> l) = [].
Proof. by induction l. Qed.

(** The [try] block, however it ends, quits and closes nothing, and
    leaves [procs] and the reference's counter alone. *)
Lemma try_body_frame names ctrls st evs st' r :
  try_body FLAGS w names ctrls st = (evs, st', r) →
  quit_calls evs = [] ∧ close_calls evs = []
  ∧ procs st' = procs st
  ∧ length (diff_counts st') = length (diff_counts st)
  ∧ diff_counts st' !! 0 = diff_counts st !! 0.
Proof.
  unfold try_body. rewrite run_bind. unfold print at 1. rewrite run_bind.
  destruct (ctrls !! 0) as [c0|] eqn:Hc0; cycle 1.
  { rewrite run_index_raise by done. by intros [= <- <- <-]. }
  rewrite (run_index _ _ c0) by done.
  rewrite run_bind. unfold call at 1.
  destruct (w_replay_info w c0) as [[]|e]; [|by intros [= <- <- <-]].
  rewrite run_bind. unfold print at 1. rewrite run_bind. unfold print at 1.
  rewrite run_bind.
  destruct (for_each _ ctrls st) as [[evs1 st1] r1] eqn:H1.
  apply for_each_call_spec in H1 as (-> & Hpre1 & _).
  pose proof (quit_calls_prefix _ _ Hpre1 (quit_calls_start_replays _)) as Hq1.
  pose proof (close_calls_prefix _ _ Hpre1 (close_calls_start_replays _)) as Hc1.
  destruct r1 as [[]|e]; cycle 1.
  { intros [= <- <- <-]. simpl. by rewrite Hq1, Hc1. }
  unfold observation_loop.
  destruct (for_range _ 0 _ st) as [[evs2 st2] r2] eqn:H2.
  apply for_range_tick_frame in H2 as (_ & Hq2 & Hc2 & Hp & Hlen & Hzero & _).
  cbv beta iota. intros [= <- <- <-]. simpl.
  by rewrite quit_calls_app, close_calls_app, Hq1, Hc1, Hq2, Hc2.
Qed.

Lemma teardown_loop_frame ps st evs st' r :
  for_each (teardown_one w) ps st = (evs, st', r) → st' = st.
Proof.
  revert evs st' r. induction ps as [|p ps IH]; intros evs st' r.
  - by intros [= <- <- <-].
  - rewrite for_each_cons, run_bind. unfold teardown_one at 1.
    rewrite run_bind. unfold call at 1 2.
    destruct (w_quit w p) as [[]|e]; [|by intros [= <- <- <-]].
    destruct (w_close w p) as [[]|e]; [|by intros [= <- <- <-]].
    cbv beta iota.
    destruct (for_each (teardown_one w) ps st) as [[evs1 st1] r1].
    intros [= <- <- <-]. by apply (IH _ _ _ eq_refl).
Qed.

Lemma teardown_frame st evs st' r :
  teardown w st = (evs, st', r) → st' = st.
Proof.
  unfold teardown. rewrite run_bind. unfold get at 1. cbv beta iota.
  destruct (for_each (teardown_one w) (procs st) st) as [[evs1 st1] r1] eqn:H1.
  apply teardown_loop_frame in H1 as ->. by intros [= <- <- <-].
Qed.

Lemma run_teardown_ok st :
  (∀ p, p ∈ procs st → w_quit w p = Ok () ∧ w_close w p = Ok ()) →
  teardown w st = (teardown_calls (procs st), st, Ok ()).
Proof.
  intros Hok. unfold teardown. rewrite run_bind. unfold get at 1.
  cbv beta iota. by rewrite teardown_loop_ok.
Qed.

Lemma run_launch i v st :
  launch w (i, v) st
  = match w_launch w i with
    | Ok _ => ([EvLaunch i], with_procs st (procs st ++ [i]), Ok ())
    | Raise e => ([EvLaunch i], st, Raise e)
    end.
Proof.
  unfold launch. rewrite run_bind. unfold call. simpl.
  by destruct (w_launch w i).
Qed.

Lemma launch_loop_frame (entries : list (nat * string)) st evs st' r :
  for_each (launch w) entries st = (evs, st', r) →
  diff_counts st' = diff_counts st ∧ diff_paths st' = diff_paths st.
Proof.
  revert st evs st' r. induction entries as [|[i v] entries IH];
    intros st evs st' r.
  - by intros [= <- <- <-].
  - rewrite for_each_cons, run_bind, run_launch.
    destruct (w_launch w i) as [[]|e]; [|by intros [= <- <- <-]].
    destruct (for_each (launch w) entries _) as [[evs1 st1] r1] eqn:H1.
    apply IH in H1 as [Hdc Hpaths]. by intros [= <- <- <-].
Qed.

(** C8. When every launch succeeds and the [try] block is left by a
    [KeyboardInterrupt] with the locals [st], [main] goes on as after
    a normal end of the loop: every launched instance is sent [quit]
    and closed, in order; the report is printed from the counters as
    they stood at the interruption; [main] returns, and the exit
    status is 0.  (Provided no [quit] or [close] raises.) *)
Theorem interrupt_is_normal_exit prog names evs st :
  w_replay_data w = Ok () →
  (∀ i, i < length names → w_launch w i = Ok ()) →
  (∀ i, i < length names → w_quit w i = Ok () ∧ w_close w i = Ok ()) →
  try_body FLAGS w names (seq 0 (length names)) (at_try (length names))
  = (evs, st, Raise KeyboardInterrupt) →
  ∃ all,
    run FLAGS w (prog :: names) = (all, st, Ok ())
    ∧ all = EvReplayData :: (EvLaunch <$> seq 0 (length names))
            ++ evs
            ++ teardown_calls (seq 0 (length names))
            ++ (EvPrint <$> report_lines FLAGS names st)
    ∧ quit_calls all = seq 0 (length names)
    ∧ close_calls all = seq 0 (length names)
    ∧ exit_status (run FLAGS w (prog :: names)).2 = 0%Z.
Proof.
  intros Hreplay Hlaunch Hdown Htry.
  pose proof (try_body_frame _ _ _ _ _ _ Htry) as (Hq & Hc & Hprocs & _ & _).
  assert (run FLAGS w (prog :: names)
          = (EvReplayData :: (EvLaunch <$> seq 0 (length names))
             ++ evs
             ++ teardown_calls (seq 0 (length names))
             ++ (EvPrint <$> report_lines FLAGS names st), st, Ok ())) as Hrun.
  { unfold run, main. simpl drop. rewrite drop_0.
    rewrite run_bind. unfold call at 1. rewrite Hreplay.
    rewrite run_bind, launch_loop_ok by (intros j Hj; apply Hlaunch; lia).
    rewrite run_bind. unfold get at 1. cbv beta iota.
    rewrite run_bind. unfold init_counters at 1.
    rewrite run_bind. unfold get at 1, put at 1. cbv beta iota.
    rewrite run_bind. unfold try_except_finally.
    change (try_body FLAGS w names _ _)
      with (try_body FLAGS w names (seq 0 (length names)) (at_try (length names))).
    rewrite Htry, run_teardown_ok.
    - rewrite run_report, Hprocs. simpl. by rewrite <- !app_assoc.
    - intros p Hp. apply Hdown. rewrite Hprocs in Hp. simpl in Hp.
      apply elem_of_seq in Hp. lia. }
  eexists. split; [exact Hrun|]. split; [done|]. rewrite Hrun. simpl.
  rewrite !quit_calls_app, !close_calls_app, Hq, Hc.
  rewrite quit_calls_launches, close_calls_launches,
    quit_calls_teardown, close_calls_teardown,
    quit_calls_prints, close_calls_prints.
  by rewrite !app_nil_r.
Qed.

Lemma zero_counter (n : nat) (dc : list Z) :
  length dc = length (replicate n 0%Z) →
  dc !! 0 = replicate n 0%Z !! 0 →
  dc = [] ∨ dc !! 0 = Some 0%Z.
Proof.
  destruct n as [|n]; simpl.
  - intros Hlen _. left. by apply nil_length_inv.
  - intros _ Hzero. by right.
Qed.

(** C10. Whatever the engines answer and however the run ends, the
    counter of the reference is zero in the locals [main] ends with
    (which are the locals the report is printed from): [diff_counts] is
    empty, when no binary was named or the counters were never set up,
    or its entry 0 is 0.  For the [try] block, entered with any locals,
    leaves entry 0 of [diff_counts] as it found it: a tick records
    diffs for the peers 1, 2, ... only. *)
Theorem reference_never_diverges argv :
  (let '(_, st, _) := run FLAGS w argv in
   diff_counts st = [] ∨ diff_counts st !! 0 = Some 0%Z)
  ∧ (∀ names ctrls st0,
       diff_counts (try_body FLAGS w names ctrls st0).1.2 !! 0
       = diff_counts st0 !! 0).
Proof.
  split; cycle 1.
  { intros names ctrls st0.
    destruct (try_body FLAGS w names ctrls st0) as [[evs st] r] eqn:Htry.
    by apply try_body_frame in Htry as (_ & _ & _ & _ & Hzero). }
  unfold run, main. destruct argv as [|prog names]; [by left|].
  simpl drop. rewrite drop_0.
  rewrite run_bind. unfold call at 1.
  destruct (w_replay_data w) as [[]|e]; [|by left].
  rewrite run_bind.
  destruct (for_each (launch w) (enumerate 0 names) initial_state)
    as [[evs1 st1] r1] eqn:H1.
  apply launch_loop_frame in H1 as [Hdc1 _].
  destruct r1 as [[]|e]; [|by left].
  rewrite run_bind. unfold get at 1. cbv beta iota.
  rewrite run_bind. unfold init_counters at 1.
  rewrite run_bind. unfold get at 1, put at 1. cbv beta iota.
  rewrite run_bind. unfold try_except_finally.
  destruct (try_body FLAGS w names (procs st1) _) as [[evs2 st2] r2] eqn:H2.
  apply try_body_frame in H2 as (_ & _ & _ & Hlen & Hzero). simpl in Hlen, Hzero.
  destruct (teardown w st2) as [[evs3 st3] r3] eqn:H3.
  apply teardown_frame in H3 as ->.
  pose proof (zero_counter _ _ Hlen Hzero) as Hfinal.
  destruct r3 as [[]|e]; [|done].
  destruct r2 as [[]|[]]; try done; by rewrite run_report.
Qed.

End Main.

(** C5, on a tick: three instances, the third one game loop ahead. *)
Lemma diff_observations_counts_witness :
  let names := ["4.10"; "4.11"; "4.12"] in
  let o0 := Sample.mk_obs 16 [10; 7]%Z false in
  let peers := [Sample.mk_obs 16 [11; 7]%Z false; Sample.mk_obs 17 [12; 7]%Z false] in
  let st := {| procs := [0; 1; 2]; diff_counts := [0; 4; 4]%Z; diff_paths := [] |} in
  ∃ evs st',
    diff_observations (Sample.flags true 10) names 1 (o0 :: peers) st
    = (evs, st', Ok (_clear_non_deterministic_fields <$> o0 :: peers))
    ∧ diff_counts st' !! 0 = Some 0%Z
    ∧ diff_counts st' !! 1 = Some 4%Z
    ∧ diff_counts st' !! 2 = Some 5%Z
    ∧ counter_get [("observation", None); ("game_loop", None)] (diff_paths st') = 1%Z.
Proof.
  intros names o0 peers st.
  destruct (diff_observations_counts (Sample.flags true 10) names 1 o0 peers st
              eq_refl eq_refl)
    as (evs & st' & Hrun & Hzero & Hpeers & Hpaths).
  exists evs, st'. split; [exact Hrun|]. split; [exact Hzero|]. split; [|split].
  - exact (Hpeers 0 _ 4%Z eq_refl eq_refl).
  - exact (Hpeers 1 _ 4%Z eq_refl eq_refl).
  - rewrite Hpaths. reflexivity.
Defined.

(** C8, on a run: three instances, the user interrupts the step of
    instance 1 in iteration 2, after instance 2 has diverged once. *)
Lemma interrupt_is_normal_exit_witness :
  let names := ["4.10"; "4.11"; "4.12"] in
  let world := Sample.interrupted 2 1 in
  let try_run := try_body (Sample.flags true 10) world names [0; 1; 2] (at_try 3) in
  try_run.2 = Raise KeyboardInterrupt
  ∧ diff_counts try_run.1.2 = [0; 0; 1]%Z
  ∧ ∃ all,
      run (Sample.flags true 10) world ("compare_binaries" :: names)
      = (all, try_run.1.2, Ok ())
      ∧ quit_calls all = [0; 1; 2]
      ∧ close_calls all = [0; 1; 2]
      ∧ binary_lines (printed all) = [("4.10", 0%Z); ("4.11", 0%Z); ("4.12", 1%Z)]
      ∧ exit_status (run (Sample.flags true 10) world ("compare_binaries" :: names)).2
        = 0%Z.
Proof.
  intros names world try_run. split; [reflexivity|]. split; [reflexivity|].
  destruct (interrupt_is_normal_exit (Sample.flags true 10) world
              "compare_binaries" names try_run.1.1 try_run.1.2)
    as (all & Hrun & Hall & Hq & Hc & Hexit).
  - reflexivity.
  - intros i _. reflexivity.
  - intros i _. split; reflexivity.
  - reflexivity.
  - exists all. split; [exact Hrun|]. split; [exact Hq|]. split; [exact Hc|].
    split; [|exact Hexit]. rewrite Hall. reflexivity.
Defined.

(** C9, on a report: three paths, two of equal count; three instances,
    two of equal count. *)
Lemma report_ranking_witness :
  let versions := ["4.10"; "4.11"; "4.12"] in
  let st := {| procs := [0; 1; 2];
               diff_counts := [0; 3; 3]%Z;
               diff_paths := [([("score", None)], 2%Z);
                              ([("units", None); ("health", None)], 5%Z);
                              ([("observation", None); ("game_loop", None)], 2%Z)] |} in
  ∃ evs,
    report (Sample.flags true 10) versions st = (evs, st, Ok ())
    ∧ StronglySorted by_count_desc (path_lines (printed evs))
    ∧ length (path_lines (printed evs)) = 3
    ∧ binary_lines (printed evs) !! 1 = Some ("4.11", 3%Z)
    ∧ binary_lines (printed evs) !! 2 = Some ("4.12", 3%Z).
Proof.
  intros versions st.
  destruct (report_ranking (Sample.flags true 10) versions st eq_refl)
    as (evs & Hrun & Hsorted & Hlen & _ & _ & Hbin & _).
  exists evs. split; [exact Hrun|]. split; [exact Hsorted|]. split; [exact Hlen|].
  split.
  - exact (Hbin 1 _ _ eq_refl eq_refl).
  - exact (Hbin 2 _ _ eq_refl eq_refl).
Defined.

(** * Further properties *)

(** ** What the normalizer clears, and what it tells apart *)

Section NormalizerKernel.

Context {Fields : Type}.

Lemma fmap_fixed_iff {A} (f : A → A) (l : list A) :
  f <$> l = l ↔ Forall (λ x, f x = x) l.
Proof.
  induction l as [|x l IH].
  - split; [constructor|done].
  - rewrite fmap_cons, Forall_cons, <- IH. split.
    + by intros [= ? ?].
    + intros [-> ->]. done.
Qed.

Lemma forallb_true_iff {A} (f : A → bool) (l : list A) :
  forallb f l = true ↔ Forall (λ x, f x = true) l.
Proof.
  induction l as [|x l IH]; simpl.
  - split; [constructor|done].
  - rewrite Forall_cons, <- IH, andb_true_iff. done.
Qed.

Lemma Forall_iff_pointwise {A} (P Q : A → Prop) (l : list A) :
  (∀ x, P x ↔ Q x) → Forall P l ↔ Forall Q l.
Proof. apply Forall_iff. Qed.

Lemma clear_target_fixed_iff (t : Target Fields) :
  clear_target_unit_tag t = t ↔ target_tag_free t = true.
Proof. destruct t; simpl; split; done. Qed.

Lemma clear_order_fixed_iff (order : UnitOrder Fields) :
  clear_order order = order ↔ target_tag_free (order_target order) = true.
Proof.
  rewrite <- clear_target_fixed_iff. destruct order as [t x]. unfold clear_order.
  simpl. split; [by intros [= ->]|by intros ->].
Qed.

Lemma clear_unit_fixed_iff (unit : Unit Fields) :
  clear_unit unit = unit ↔ unit_tag_free unit = true.
Proof.
  destruct unit as [tag orders x]. unfold clear_unit, unit_tag_free. simpl.
  destruct tag as [tag|]; [split; done|].
  rewrite forallb_true_iff.
  rewrite <- (Forall_iff_pointwise _ _ _ clear_order_fixed_iff).
  rewrite <- fmap_fixed_iff. split; [by intros [= ->]|by intros ->].
Qed.

Lemma clear_action_fixed_iff (action : Action Fields) :
  clear_action action = action ↔ action_tag_free action = true.
Proof.
  destruct action as [[[|[t y]|z]|] x]; unfold clear_action, action_tag_free; simpl;
    try (split; done).
  rewrite <- clear_target_fixed_iff. unfold clear_unit_command. simpl.
  split; [by intros [= ->]|by intros ->].
Qed.

(** X1. Every field the normalizer clears is unset in what it returns, and
    the observations it leaves as they are are exactly those in which
    these fields are unset already: no unit has a tag, and no order or
    unit command targets a unit tag. *)
Theorem cleared_is_tag_free (obs : ResponseObservation Fields) :
  tag_free (_clear_non_deterministic_fields obs) = true
  ∧ (_clear_non_deterministic_fields obs = obs ↔ tag_free obs = true).
Proof.
  assert (∀ o : ResponseObservation Fields,
            _clear_non_deterministic_fields o = o ↔ tag_free o = true) as Hiff.
  { intros [acts o res x]. unfold _clear_non_deterministic_fields, tag_free. simpl.
    rewrite andb_true_iff, forallb_true_iff.
    rewrite <- (Forall_iff_pointwise _ _ _ clear_action_fixed_iff).
    rewrite <- fmap_fixed_iff.
    assert (clear_observation <$> o = o
            ↔ match o ≫= @raw_data Fields with
              | Some raw => forallb unit_tag_free (raw_units raw)
              | None => true
              end = true) as <-.
    { destruct o as [[loop [[units y]|] z]|]; simpl; try (split; done).
      rewrite forallb_true_iff.
      rewrite <- (Forall_iff_pointwise _ _ _ clear_unit_fixed_iff).
      rewrite <- fmap_fixed_iff. unfold clear_observation, clear_raw_data. simpl.
      split; [by intros [= ->]|by intros ->]. }
    split; [by intros [= -> ->]|by intros [-> ->]]. }
  split; [|apply Hiff].
  apply Hiff. unfold _clear_non_deterministic_fields. simpl. f_equal.
  - apply fmap_idem, clear_action_idem.
  - apply option_fmap_idem, clear_observation_idem.
Qed.

Lemma Forall2_fmap_eq {A B} (R : A → A → Prop) (f : A → B) (l1 l2 : list A) :
  (∀ x y, R x y ↔ f x = f y) → Forall2 R l1 l2 ↔ f <$> l1 = f <$> l2.
Proof.
  intros HR. revert l2. induction l1 as [|x l1 IH]; intros [|y l2].
  - split; [done|constructor].
  - split; [by inversion 1|done].
  - split; [by inversion 1|done].
  - rewrite !fmap_cons, Forall2_cons, IH, HR.
    split; [by intros [-> ->]|by intros [= -> ->]].
Qed.

Lemma option_Forall2_fmap_eq {A B} (R : A → A → Prop) (f : A → B) (o1 o2 : option A) :
  (∀ x y, R x y ↔ f x = f y) → option_Forall2 R o1 o2 ↔ f <$> o1 = f <$> o2.
Proof.
  intros HR. destruct o1 as [x|], o2 as [y|]; simpl.
  - split; [inversion 1; f_equal; by apply HR|intros [= ?]; constructor; by apply HR].
  - split; [by inversion 1|done].
  - split; [by inversion 1|done].
  - split; [done|constructor].
Qed.

Lemma target_alike_iff (t1 t2 : Target Fields) :
  target_alike t1 t2 ↔ clear_target_unit_tag t1 = clear_target_unit_tag t2.
Proof. destruct t1, t2; simpl; split; try done; congruence. Qed.

Lemma order_alike_iff (o1 o2 : UnitOrder Fields) :
  order_alike o1 o2 ↔ clear_order o1 = clear_order o2.
Proof.
  unfold order_alike, clear_order. rewrite target_alike_iff.
  split; [by intros [-> ->]|by intros [= -> ->]].
Qed.

Lemma unit_alike_iff (u1 u2 : Unit Fields) :
  unit_alike u1 u2 ↔ clear_unit u1 = clear_unit u2.
Proof.
  unfold unit_alike, clear_unit.
  rewrite (Forall2_fmap_eq _ clear_order _ _ order_alike_iff).
  split; [by intros [-> ->]|by intros [= -> ->]].
Qed.

Lemma raw_data_alike_iff (r1 r2 : ObservationRaw Fields) :
  raw_data_alike r1 r2 ↔ clear_raw_data r1 = clear_raw_data r2.
Proof.
  unfold raw_data_alike, clear_raw_data.
  rewrite (Forall2_fmap_eq _ clear_unit _ _ unit_alike_iff).
  split; [by intros [-> ->]|by intros [= -> ->]].
Qed.

Lemma observation_alike_iff (o1 o2 : Observation Fields) :
  observation_alike o1 o2 ↔ clear_observation o1 = clear_observation o2.
Proof.
  unfold observation_alike, clear_observation.
  rewrite (option_Forall2_fmap_eq _ clear_raw_data _ _ raw_data_alike_iff).
  split; [by intros (-> & -> & ->)|by intros [= -> -> ->]].
Qed.

Lemma action_raw_alike_iff (a1 a2 : ActionRaw Fields) :
  action_raw_alike a1 a2 ↔ clear_action_raw a1 = clear_action_raw a2.
Proof.
  destruct a1 as [|c1|x1], a2 as [|c2|x2]; simpl; try (split; done).
  - unfold clear_unit_command. rewrite target_alike_iff.
    split; [by intros [-> ->]|by intros [= -> ->]].
  - split; congruence.
Qed.

Lemma action_alike_iff (a1 a2 : Action Fields) :
  action_alike a1 a2 ↔ clear_action a1 = clear_action a2.
Proof.
  unfold action_alike, clear_action.
  rewrite (option_Forall2_fmap_eq _ clear_action_raw _ _ action_raw_alike_iff).
  split; [by intros [-> ->]|by intros [= -> ->]].
Qed.

(** X2. The normalizer gives two observations the same result exactly when
    they differ in nothing but the units' tags and the unit tags that
    orders and unit commands target. *)
Theorem cleared_equal_iff_alike (obs1 obs2 : ResponseObservation Fields) :
  _clear_non_deterministic_fields obs1 = _clear_non_deterministic_fields obs2
  ↔ alike_up_to_tags obs1 obs2.
Proof.
  unfold alike_up_to_tags, _clear_non_deterministic_fields.
  rewrite (Forall2_fmap_eq _ clear_action _ _ action_alike_iff).
  rewrite (option_Forall2_fmap_eq _ clear_observation _ _ observation_alike_iff).
  split; [by intros [= -> -> -> ->]|by intros (-> & -> & -> & ->)].
Qed.

End NormalizerKernel.

(** ** How a computation ends *)

Section Endings.

Context {Fields : Type} `{!DiffEngine Fields}.

(** A loop of calls returns when every answer does, and raises what the
    first call that raises does, after the calls before it. *)
Lemma for_each_call_cases (ev : nat → Event) (ans : nat → Res unit) l st evs st' r :
  for_each (λ c, call (ev c) (ans c)) l st = (evs, st', r) →
  st' = st
  ∧ ((r = Ok () ∧ evs = ev <$> l ∧ ∀ c, c ∈ l → ans c = Ok ())
     ∨ (∃ e pre c post,
          r = Raise e ∧ l = pre ++ c :: post ∧ evs = ev <$> pre ++ [c]
          ∧ ans c = Raise e ∧ ∀ c', c' ∈ pre → ans c' = Ok ())).
Proof.
  revert evs st' r. induction l as [|c l IH]; intros evs st' r.
  - intros [= <- <- <-]. split; [done|]. left. split_and!; try done.
    intros c Hc. by apply elem_of_nil in Hc.
  - rewrite for_each_cons, run_bind. unfold call at 1.
    destruct (ans c) as [[]|e] eqn:Hc.
    + destruct (for_each (λ c, call (ev c) (ans c)) l st) as [[evs1 st1] r1].
      destruct (IH _ _ _ eq_refl) as [-> Hcases].
      intros [= <- <- <-]. split; [done|].
      destruct Hcases as [(-> & -> & Hall)|(e & pre & c' & post & -> & -> & -> & Hc' & Hpre)].
      * left. split_and!; try done.
        intros c' [->|Hc']%elem_of_cons; [done|by apply Hall].
      * right. exists e, (c :: pre), c', post. split_and!; try done.
        intros c'' [->|Hc'']%elem_of_cons; [done|by apply Hpre].
    + intros [= <- <- <-]. split; [done|]. right.
      exists e, [], c, l. split_and!; try done.
      intros c' Hc'. by apply elem_of_nil in Hc'.
Qed.

Lemma collect_call_cases {B} (ev : nat → Event) (ans : nat → Res B) l st evs st' r :
  collect (λ c, call (ev c) (ans c)) l st = (evs, st', r) →
  st' = st
  ∧ ((∃ ys, r = Ok ys ∧ evs = ev <$> l ∧ Forall2 (λ c y, ans c = Ok y) l ys)
     ∨ (∃ e pre c post,
          r = Raise e ∧ l = pre ++ c :: post ∧ evs = ev <$> pre ++ [c]
          ∧ ans c = Raise e)).
Proof.
  revert evs st' r. induction l as [|c l IH]; intros evs st' r.
  - intros [= <- <- <-]. split; [done|]. left. exists []. by split_and!.
  - rewrite collect_cons, run_bind. unfold call at 1.
    destruct (ans c) as [y|e] eqn:Hc.
    + rewrite run_bind.
      destruct (collect (λ c, call (ev c) (ans c)) l st) as [[evs1 st1] r1].
      destruct (IH _ _ _ eq_refl) as [-> Hcases].
      destruct Hcases as [(ys & -> & -> & Hall)|(e & pre & c' & post & -> & -> & -> & Hc')].
      * rewrite run_ret. cbv beta iota. intros [= <- <- <-]. split; [done|].
        left. exists (y :: ys). rewrite app_nil_r. split_and!; try done.
        by constructor.
      * intros [= <- <- <-]. split; [done|]. right.
        exists e, (c :: pre), c', post. by split_and!.
    + intros [= <- <- <-]. split; [done|]. right.
      exists e, [], c, l. by split_and!.
Qed.

End Endings.

(** ** The steps of a tick *)

Section TickCases.

Context {Fields : Type} `{!DiffEngine Fields}.
Variable FLAGS : Flags.
Variable w : World Fields.

(** The diff step on the observations [o :: peers]: the peers' diffs are
    computed; if none is truthy nothing else happens; otherwise the
    header is printed and the diffs are recorded in order. *)
Lemma diff_observations_cases names k o peers st evs st' r :
  diff_observations FLAGS names k (o :: peers) st = (evs, st', r) →
  ∃ evs1 r1,
    evs = (EvComputeDiff k <$> seq 1 (length peers)) ++ evs1
    ∧ r = match r1 with
          | Ok _ => Ok (_clear_non_deterministic_fields <$> o :: peers)
          | Raise e => Raise e
          end
    ∧ if existsb diff_truthy
           (compute_diff (_clear_non_deterministic_fields o)
              <$> (_clear_non_deterministic_fields <$> peers))
      then ∃ evs2,
             evs1 = EvPrint (OutDiffOnStep
                               (read_game_loop (_clear_non_deterministic_fields o)))
                    :: evs2
             ∧ for_each (record_diff FLAGS names)
                 (zip (seq 1 (length peers))
                    (compute_diff (_clear_non_deterministic_fields o)
                       <$> (_clear_non_deterministic_fields <$> peers))) st
               = (evs2, st', r1)
      else evs1 = [] ∧ st' = st ∧ r1 = Ok ().
Proof.
  unfold diff_observations. rewrite fmap_cons. simpl drop. rewrite !drop_0, run_bind.
  rewrite (run_compute_diffs _ _ _ (_clear_non_deterministic_fields o)) by done.
  rewrite length_fmap. rewrite run_bind.
  rewrite snd_zip by (rewrite length_seq, !length_fmap; lia).
  destruct (existsb diff_truthy _).
  - rewrite run_bind, (run_index _ _ (_clear_non_deterministic_fields o)) by done.
    rewrite run_bind. unfold print at 1.
    destruct (for_each (record_diff FLAGS names) _ st) as [[evs2 st2] r2].
    destruct r2 as [[]|e]; cbv beta iota; intros [= <- <- <-].
    + eexists _, (Ok ()). split; [done|]. split; [done|].
      eexists. split; [|done]. by rewrite app_nil_r.
    + eexists _, (Raise e). split; [done|]. split; [done|].
      eexists. split; done.
  - cbv beta iota. intros [= <- <- <-].
    exists [], (Ok ()). by split_and!.
Qed.

(** A tick: the steps, then the observations, then (when diffing is on)
    the diff step, then the look at the reference's player result. *)
Lemma tick_cases names ctrls k st evs st' r :
  tick FLAGS w names ctrls k st = (evs, st', r) →
  (∃ e pre c post,
     r = Raise e ∧ st' = st ∧ ctrls = pre ++ c :: post
     ∧ evs = EvStep k <$> pre ++ [c] ∧ w_step w k c = Raise e)
  ∨ (∃ e pre c post,
       r = Raise e ∧ st' = st ∧ ctrls = pre ++ c :: post
       ∧ evs = (EvStep k <$> ctrls) ++ (EvObserve k <$> pre ++ [c])
       ∧ w_observe w k c = Raise e)
  ∨ (∃ obs evs3 r3,
       (∀ c, c ∈ ctrls → w_step w k c = Ok ())
       ∧ Forall2 (λ c o, w_observe w k c = Ok o) ctrls obs
       ∧ evs = (EvStep k <$> ctrls) ++ (EvObserve k <$> ctrls) ++ evs3
       ∧ (if FLAGS_diff FLAGS
          then diff_observations FLAGS names k obs st = (evs3, st', r3)
          else evs3 = [] ∧ st' = st ∧ r3 = Ok obs)
       ∧ r = match r3 with
             | Ok obs' => match obs' !! 0 with
                          | Some o0 => Ok (game_over o0)
                          | None => Raise IndexError
                          end
             | Raise e => Raise e
             end).
Proof.
  unfold tick. rewrite run_bind.
  destruct (for_each _ ctrls st) as [[evs1 st1] r1] eqn:H1.
  apply for_each_call_cases in H1
    as [-> [(-> & -> & Hsteps)|(e & pre & c & post & -> & -> & -> & Hc & _)]];
    cycle 1.
  { intros [= <- <- <-]. left. by exists e, pre, c, post. }
  rewrite run_bind.
  destruct (collect _ ctrls st) as [[evs2 st2] r2] eqn:H2.
  apply collect_call_cases in H2
    as [-> [(obs & -> & -> & Hobs)|(e & pre & c & post & -> & -> & -> & Hc)]];
    cycle 1.
  { intros [= <- <- <-]. right. left. by exists e, pre, c, post. }
  rewrite run_bind. intros Hrun. right. right.
  destruct (FLAGS_diff FLAGS).
  - destruct (diff_observations FLAGS names k obs st) as [[evs3 st3] r3] eqn:H3.
    exists obs, evs3, r3. split; [done|]. split; [done|].
    destruct r3 as [obs'|e].
    + rewrite run_bind in Hrun. unfold index in Hrun.
      destruct (obs' !! 0) as [o0|]; injection Hrun as <- <- <-;
        rewrite ?app_nil_r; by split_and!.
    + injection Hrun as <- <- <-. by split_and!.
  - rewrite run_ret in Hrun. cbv beta iota in Hrun.
    exists obs, [], (Ok obs). split; [done|]. split; [done|].
    rewrite run_bind in Hrun. unfold index in Hrun.
    destruct (obs !! 0) as [o0|]; injection Hrun as <- <- <-;
      rewrite ?app_nil_r; by split_and!.
Qed.

End TickCases.

(** ** What the observation loop keeps *)

Section Invariant.

Context {Fields : Type} `{!DiffEngine Fields}.
Variable FLAGS : Flags.
Variable w : World Fields.

(** A property of the locals that both counter updates keep, and a
    property of events that holds of all the loop can emit. *)
Variable P : State → Prop.
Variable Q : Event → Prop.

Hypothesis P_count : ∀ st i c,
  P st → diff_counts st !! i = Some c →
  P {| procs := procs st;
       diff_counts := <[i := (c + 1)%Z]> (diff_counts st);
       diff_paths := diff_paths st |}.

Hypothesis P_path : ∀ st path,
  P st →
  P {| procs := procs st;
       diff_counts := diff_counts st;
       diff_paths := counter_incr (with_anonymous_array_indices path) (diff_paths st) |}.

Hypothesis Q_step : ∀ k i, Q (EvStep k i).
Hypothesis Q_observe : ∀ k i, Q (EvObserve k i).
Hypothesis Q_diff : ∀ k i, Q (EvComputeDiff k i).
Hypothesis Q_header : ∀ z, Q (EvPrint (OutDiffOnStep z)).
Hypothesis Q_name : ∀ name, Q (EvPrint (OutVersionName name)).
Hypothesis Q_report : ∀ d z, Q (EvPrint (OutDiffReport d z)).

Lemma count_paths_keeps paths st :
  P st →
  P {| procs := procs st;
       diff_counts := diff_counts st;
       diff_paths := count_paths paths (diff_paths st) |}.
Proof.
  revert st. induction paths as [|path paths IH]; intros st HP.
  - by destruct st.
  - apply (IH _ (P_path st path HP)).
Qed.

Lemma record_diff_keeps names i diff st evs st' r :
  record_diff FLAGS names (i, diff) st = (evs, st', r) →
  P st → P st' ∧ Forall Q evs.
Proof.
  intros Hrun HP.
  destruct (names !! i) as [name|] eqn:Hname;
    [destruct (diff_counts st !! i) as [c|] eqn:Hc|].
  - rewrite (run_record_diff _ _ _ _ name c) in Hrun by done.
    destruct (diff_truthy diff); injection Hrun as <- <- <-.
    + split; [|by repeat constructor].
      apply (count_paths_keeps _ _ (P_count st i c HP Hc)).
    + by split.
  - revert Hrun. unfold record_diff. destruct (diff_truthy diff).
    + rewrite run_bind, (run_index _ _ name) by done.
      rewrite run_bind. unfold print at 1.
      rewrite run_bind, run_incr_diff_count_raise by done.
      intros [= <- <- <-]. split; [done|]. by repeat constructor.
    + by intros [= <- <- <-].
  - revert Hrun. unfold record_diff. destruct (diff_truthy diff).
    + rewrite run_bind, run_index_raise by done. by intros [= <- <- <-].
    + by intros [= <- <- <-].
Qed.

Lemma record_loop_keeps names (entries : list (nat * DiffResult)) st evs st' r :
  for_each (record_diff FLAGS names) entries st = (evs, st', r) →
  P st → P st' ∧ Forall Q evs.
Proof.
  revert st evs st' r. induction entries as [|[i diff] entries IH];
    intros st evs st' r.
  - by intros [= <- <- <-].
  - rewrite for_each_cons, run_bind.
    destruct (record_diff FLAGS names (i, diff) st) as [[evs1 st1] r1] eqn:H1.
    intros Hrun HP. apply record_diff_keeps in H1 as [HP1 HQ1]; [|done].
    destruct r1 as [[]|e]; [|by injection Hrun as <- <- <-].
    destruct (for_each (record_diff FLAGS names) entries st1)
      as [[evs2 st2] r2] eqn:H2.
    apply IH in H2 as [HP2 HQ2]; [|done].
    injection Hrun as <- <- <-. split; [done|]. by apply Forall_app.
Qed.

Lemma diff_observations_keeps names k obs st evs st' r :
  diff_observations FLAGS names k obs st = (evs, st', r) →
  P st → P st' ∧ Forall Q evs.
Proof.
  destruct obs as [|o peers]; [by intros [= <- <- <-]|].
  intros (evs1 & r1 & -> & _ & Hcases)%diff_observations_cases HP.
  assert (Forall Q (EvComputeDiff k <$> seq 1 (length peers))) as Hdiffs
    by (apply Forall_fmap, Forall_true; intros i; apply Q_diff).
  destruct (existsb diff_truthy _).
  - destruct Hcases as (evs2 & -> & Hloop).
    apply record_loop_keeps in Hloop as [HP' HQ']; [|done].
    split; [done|]. apply Forall_app. split; [done|]. by constructor.
  - destruct Hcases as (-> & -> & _). split; [done|]. by rewrite app_nil_r.
Qed.

Lemma tick_keeps names ctrls k st evs st' r :
  tick FLAGS w names ctrls k st = (evs, st', r) →
  P st → P st' ∧ Forall Q evs.
Proof.
  intros Hrun HP.
  assert (∀ l, Forall Q (EvStep k <$> l)) as Hsteps
    by (intros l; apply Forall_fmap, Forall_true; intros i; apply Q_step).
  assert (∀ l, Forall Q (EvObserve k <$> l)) as Hobserves
    by (intros l; apply Forall_fmap, Forall_true; intros i; apply Q_observe).
  apply tick_cases in Hrun
    as [(e & pre & c & post & -> & -> & -> & -> & _)
       |[(e & pre & c & post & -> & -> & -> & -> & _)
        |(obs & evs3 & r3 & _ & _ & -> & Hdiff & _)]].
  - by split.
  - split; [done|]. apply Forall_app. by split.
  - destruct (FLAGS_diff FLAGS).
    + apply diff_observations_keeps in Hdiff as [HP' HQ']; [|done].
      split; [done|]. rewrite !Forall_app. by split_and!.
    + destruct Hdiff as (-> & -> & _). split; [done|].
      rewrite !Forall_app. by split_and!.
Qed.

Lemma for_range_tick_keeps names ctrls start n st evs st' r :
  for_range (tick FLAGS w names ctrls) start n st = (evs, st', r) →
  P st → P st' ∧ Forall Q evs.
Proof.
  revert start st evs st' r. induction n as [|n IH]; intros start st evs st' r.
  - by intros [= <- <- <-].
  - rewrite for_range_S, run_bind.
    destruct (tick FLAGS w names ctrls start st) as [[evs1 st1] r1] eqn:H1.
    intros Hrun HP. apply tick_keeps in H1 as [HP1 HQ1]; [|done].
    destruct r1 as [[]|e].
    + rewrite run_ret in Hrun. injection Hrun as <- <- <-.
      split; [done|]. by rewrite app_nil_r.
    + destruct (for_range (tick FLAGS w names ctrls) (S start) n st1)
        as [[evs2 st2] r2] eqn:H2.
      apply IH in H2 as [HP2 HQ2]; [|done].
      injection Hrun as <- <- <-. split; [done|]. by apply Forall_app.
    + by injection Hrun as <- <- <-.
Qed.

End Invariant.

(** ** The steps of a run *)

Section RunCases.

Context {Fields : Type} `{!DiffEngine Fields}.
Variable FLAGS : Flags.
Variable w : World Fields.

Lemma launch_loop_cases (names : list string) (i : nat) st evs st' r :
  for_each (launch w) (enumerate i names) st = (evs, st', r) →
  (r = Ok () ∧ evs = EvLaunch <$> seq i (length names)
   ∧ st' = with_procs st (procs st ++ seq i (length names))
   ∧ ∀ j, i ≤ j < i + length names → w_launch w j = Ok ())
  ∨ (∃ e k, k < length names ∧ r = Raise e
            ∧ evs = EvLaunch <$> seq i (S k)
            ∧ st' = with_procs st (procs st ++ seq i k)
            ∧ w_launch w (i + k) = Raise e
            ∧ ∀ j, i ≤ j < i + k → w_launch w j = Ok ()).
Proof.
  revert i st evs st' r. induction names as [|v names IH]; intros i st evs st' r.
  - intros [= <- <- <-]. left. split_and!; try done.
    + destruct st. unfold with_procs. simpl. by rewrite app_nil_r.
    + simpl. lia.
  - change (enumerate i (v :: names)) with ((i, v) :: enumerate (S i) names).
    rewrite for_each_cons, run_bind, run_launch.
    destruct (w_launch w i) as [[]|e] eqn:Hi.
    + destruct (for_each (launch w) (enumerate (S i) names) _)
        as [[evs1 st1] r1] eqn:H1.
      apply IH in H1
        as [(-> & -> & -> & Hall)|(e & k & Hk & -> & -> & -> & Hfail & Hpre)];
        intros [= <- <- <-].
      * left. split_and!; try done.
        -- unfold with_procs. simpl. by rewrite <- app_assoc.
        -- intros j Hj. destruct (decide (j = i)) as [->|]; [done|].
           apply Hall. simpl in Hj. lia.
      * right. exists e, (S k). split_and!; try done.
        -- simpl. lia.
        -- unfold with_procs. simpl. by rewrite <- app_assoc.
        -- by replace (i + S k) with (S i + k) by lia.
        -- intros j Hj. destruct (decide (j = i)) as [->|]; [done|].
           apply Hpre. lia.
    + intros [= <- <- <-]. right. exists e, 0. split_and!; try done.
      * simpl. lia.
      * destruct st. unfold with_procs. simpl. by rewrite app_nil_r.
      * by rewrite Nat.add_0_r.
      * intros j Hj. lia.
Qed.

(** The [try] block: the rule, the replay info of the first controller,
    [start_replay] on every controller, then the observation loop. *)
Lemma try_body_cases names ctrls st evs st' r :
  try_body FLAGS w names ctrls st = (evs, st', r) →
  (ctrls = [] ∧ evs = [EvPrint OutRule] ∧ st' = st ∧ r = Raise IndexError)
  ∨ ∃ c0 rest,
      ctrls = c0 :: rest
      ∧ ((∃ e, w_replay_info w c0 = Raise e
               ∧ evs = [EvPrint OutRule; EvReplayInfo c0] ∧ st' = st ∧ r = Raise e)
         ∨ (w_replay_info w c0 = Ok ()
            ∧ ∃ evs1,
                evs = [EvPrint OutRule; EvReplayInfo c0; EvPrint OutReplayInfo;
                       EvPrint OutRule] ++ evs1
                ∧ ((∃ e pre c post,
                      ctrls = pre ++ c :: post
                      ∧ evs1 = EvStartReplay <$> pre ++ [c]
                      ∧ w_start_replay w c = Raise e ∧ st' = st ∧ r = Raise e)
                   ∨ (∃ evs2,
                        (∀ c, c ∈ ctrls → w_start_replay w c = Ok ())
                        ∧ evs1 = (EvStartReplay <$> ctrls) ++ evs2
                        ∧ for_range (tick FLAGS w names ctrls) 0
                            (Z.to_nat (FLAGS_count FLAGS)) st
                          = (evs2, st', r))))).
Proof.
  unfold try_body. rewrite run_bind. unfold print at 1. rewrite run_bind.
  destruct ctrls as [|c0 rest].
  { rewrite run_index_raise by done. intros [= <- <- <-]. by left. }
  rewrite (run_index _ _ c0) by done. intros Hrun. right. exists c0, rest.
  split; [done|]. revert Hrun.
  rewrite run_bind. unfold call at 1.
  destruct (w_replay_info w c0) as [[]|e]; cycle 1.
  { intros [= <- <- <-]. left. by exists e. }
  rewrite run_bind. unfold print at 1. rewrite run_bind. unfold print at 1.
  rewrite run_bind.
  destruct (for_each _ (c0 :: rest) st) as [[evs1 st1] r1] eqn:H1.
  apply for_each_call_cases in H1
    as [-> [(-> & -> & Hall)|(e & pre & c & post & -> & Hl & -> & Hc & _)]].
  - unfold observation_loop.
    destruct (for_range _ 0 _ st) as [[evs2 st2] r2] eqn:H2.
    cbv beta iota. intros [= <- <- <-]. right. split; [done|].
    eexists. split; [done|]. right. by exists evs2.
  - intros [= <- <- <-]. right. split; [done|].
    eexists. split; [done|]. left. by exists e, pre, c, post.
Qed.

(** A run that gets to the [try] statement: what [main] does with the
    ends of the [try] and [finally] blocks. *)
Lemma run_from_try prog names evs st r evsd rd :
  w_replay_data w = Ok () →
  (∀ j, j < length names → w_launch w j = Ok ()) →
  try_body FLAGS w names (seq 0 (length names)) (at_try (length names))
  = (evs, st, r) →
  teardown w st = (evsd, st, rd) →
  run FLAGS w (prog :: names)
  = (startup_calls (length names) ++ evs ++ evsd
     ++ report_events FLAGS names st (outcome r rd),
     st, outcome r rd).
Proof.
  intros Hreplay Hlaunch Htry Hdown.
  unfold run, main. simpl drop. rewrite drop_0.
  rewrite run_bind. unfold call at 1. rewrite Hreplay.
  rewrite run_bind, launch_loop_ok by (intros j Hj; apply Hlaunch; lia).
  rewrite run_bind. unfold get at 1. cbv beta iota.
  rewrite run_bind. unfold init_counters at 1.
  rewrite run_bind. unfold get at 1, put at 1. cbv beta iota.
  rewrite run_bind. unfold try_except_finally.
  change (try_body FLAGS w names _ _)
    with (try_body FLAGS w names (seq 0 (length names)) (at_try (length names))).
  rewrite Htry, Hdown. unfold report_events, outcome, startup_calls.
  destruct rd as [[]|e'].
  - destruct r as [[]|[]]; rewrite ?run_report; simpl;
      by rewrite ?app_nil_r, <- ?app_assoc.
  - simpl. by rewrite ?app_nil_r, <- ?app_assoc.
Qed.

(** Every run: no argument; the replay does not load; a launch fails;
    or the [try] statement is reached. *)
Lemma run_cases argv :
  (argv = [] ∧ run FLAGS w argv = ([], initial_state, Raise (SystemExit usage)))
  ∨ ∃ prog names,
      argv = prog :: names
      ∧ ((∃ e, w_replay_data w = Raise e
               ∧ run FLAGS w argv = ([EvReplayData], initial_state, Raise e))
         ∨ (∃ e k, k < length names
                   ∧ w_launch w k = Raise e
                   ∧ run FLAGS w argv
                     = (startup_calls (S k),
                        with_procs initial_state (seq 0 k), Raise e))
         ∨ (∃ evs st r evsd rd,
              w_replay_data w = Ok ()
              ∧ (∀ j, j < length names → w_launch w j = Ok ())
              ∧ try_body FLAGS w names (seq 0 (length names))
                  (at_try (length names)) = (evs, st, r)
              ∧ teardown w st = (evsd, st, rd)
              ∧ run FLAGS w argv
                = (startup_calls (length names) ++ evs ++ evsd
                   ++ report_events FLAGS names st (outcome r rd),
                   st, outcome r rd))).
Proof.
  destruct argv as [|prog names]; [by left|]. right. exists prog, names.
  split; [done|].
  destruct (w_replay_data w) as [[]|e] eqn:Hreplay; cycle 1.
  { left. exists e. split; [done|]. unfold run, main. simpl drop.
    rewrite run_bind. unfold call at 1. by rewrite Hreplay. }
  right.
  destruct (for_each (launch w) (enumerate 0 names) initial_state)
    as [[evs1 st1] r1] eqn:H1.
  pose proof H1 as Hcases. apply launch_loop_cases in Hcases
    as [(-> & -> & -> & Hall)|(e & k & Hk & -> & -> & -> & Hfail & _)].
  - right.
    destruct (try_body FLAGS w names (seq 0 (length names)) (at_try (length names)))
      as [[evs st] r] eqn:Htry.
    destruct (teardown w st) as [[evsd st'] rd] eqn:Hdown.
    pose proof (teardown_frame _ _ _ _ _ Hdown) as ->.
    exists evs, st, r, evsd, rd. split; [done|].
    assert (∀ j, j < length names → w_launch w j = Ok ()) as Hlaunch
      by (intros j Hj; apply Hall; lia).
    split; [done|]. split; [done|]. split; [done|].
    by apply run_from_try.
  - left. exists e, k. split; [done|]. split; [done|].
    unfold run, main. simpl drop. rewrite drop_0.
    rewrite run_bind. unfold call at 1. rewrite Hreplay.
    by rewrite run_bind, H1.
Qed.

End RunCases.

(** ** Leaving the [try] block *)

Section Exits.

Context {Fields : Type} `{!DiffEngine Fields}.
Variable FLAGS : Flags.
Variable w : World Fields.

Lemma quit_calls_report_events names st r :
  quit_calls (report_events FLAGS names st r) = [].
Proof. destruct r; [apply quit_calls_prints|done]. Qed.

Lemma close_calls_report_events names st r :
  close_calls (report_events FLAGS names st r) = [].
Proof. destruct r; [apply close_calls_prints|done]. Qed.

Lemma quit_calls_startup n : quit_calls (startup_calls n) = [].
Proof. apply quit_calls_launches. Qed.

Lemma close_calls_startup n : close_calls (startup_calls n) = [].
Proof. apply close_calls_launches. Qed.

(** X3. When every launch succeeded and no [quit] or [close] raises,
    then however the [try] block ends (by returning, by a
    [KeyboardInterrupt] or by any other exception, with the events [evs]
    and the locals [st]), every launched instance is sent [quit] and
    closed exactly once, in instance order, after the events of the
    block.  An exception other than [KeyboardInterrupt] then leaves
    [main], with nothing printed after it; otherwise the report is
    printed from [st] and [main] returns. *)
Theorem teardown_on_every_exit prog names evs st r :
  w_replay_data w = Ok () →
  (∀ i, i < length names → w_launch w i = Ok ()) →
  (∀ i, i < length names → w_quit w i = Ok () ∧ w_close w i = Ok ()) →
  try_body FLAGS w names (seq 0 (length names)) (at_try (length names))
  = (evs, st, r) →
  let ending := match r with Raise KeyboardInterrupt => Ok () | _ => r end in
  ∃ all,
    run FLAGS w (prog :: names) = (all, st, ending)
    ∧ all = startup_calls (length names) ++ evs
            ++ teardown_calls (seq 0 (length names))
            ++ report_events FLAGS names st ending
    ∧ quit_calls all = seq 0 (length names)
    ∧ close_calls all = seq 0 (length names).
Proof.
  intros Hreplay Hlaunch Hdown Htry ending.
  pose proof (try_body_frame _ _ _ _ _ _ _ _ Htry) as (Hq & Hc & Hprocs & _ & _).
  assert (teardown w st = (teardown_calls (seq 0 (length names)), st, Ok ()))
    as Hteardown.
  { rewrite run_teardown_ok; [by rewrite Hprocs|].
    intros p Hp. apply Hdown. rewrite Hprocs in Hp. simpl in Hp.
    apply elem_of_seq in Hp. lia. }
  pose proof (run_from_try FLAGS w prog names _ _ _ _ _
                Hreplay Hlaunch Htry Hteardown) as Hrun.
  change (outcome r (Ok ())) with ending in Hrun.
  eexists. split; [exact Hrun|]. split; [done|].
  rewrite !quit_calls_app, !close_calls_app, Hq, Hc.
  rewrite quit_calls_startup, close_calls_startup,
    quit_calls_teardown, close_calls_teardown,
    quit_calls_report_events, close_calls_report_events.
  by rewrite !app_nil_r.
Qed.

(** X4. An exception raised in the [finally] block is what [main] ends
    with, whatever the [try] block did: when the [quit] or [close] of
    instance [p] is the first to raise, with [e'], the run ends with
    [e'] after the teardown calls up to that one, also when the [try]
    block returned, was interrupted or raised another exception; the
    report is not printed. *)
Theorem teardown_failure_replaces_outcome prog names evs st r pre p post e' :
  w_replay_data w = Ok () →
  (∀ i, i < length names → w_launch w i = Ok ()) →
  try_body FLAGS w names (seq 0 (length names)) (at_try (length names))
  = (evs, st, r) →
  seq 0 (length names) = pre ++ p :: post →
  (∀ q, q ∈ pre → w_quit w q = Ok () ∧ w_close w q = Ok ()) →
  w_quit w p = Raise e' ∨ (w_quit w p = Ok () ∧ w_close w p = Raise e') →
  run FLAGS w (prog :: names)
  = (startup_calls (length names) ++ evs
     ++ teardown_calls pre
     ++ EvQuit p :: (if w_quit w p is Ok _ then [EvClose p] else []),
     st, Raise e').
Proof.
  intros Hreplay Hlaunch Htry Hseq Hpre Hfail.
  pose proof (try_body_frame _ _ _ _ _ _ _ _ Htry) as (_ & _ & Hprocs & _ & _).
  simpl in Hprocs.
  assert (teardown w st
          = (teardown_calls pre
             ++ EvQuit p :: (if w_quit w p is Ok _ then [EvClose p] else []),
             st, Raise e')) as Hteardown.
  { unfold teardown. rewrite run_bind. unfold get at 1. cbv beta iota.
    rewrite Hprocs, Hseq. by rewrite (teardown_loop_raise w pre p post e'). }
  rewrite (run_from_try FLAGS w prog names _ _ _ _ _
             Hreplay Hlaunch Htry Hteardown).
  unfold outcome, report_events. by rewrite app_nil_r.
Qed.

End Exits.

(** ** The order of the calls of a run *)

Section CallOrder.

Context {Fields : Type} `{!DiffEngine Fields}.
Variable FLAGS : Flags.
Variable w : World Fields.

Lemma engine_calls_app (evs1 evs2 : list Event) :
  engine_calls (evs1 ++ evs2) = engine_calls evs1 ++ engine_calls evs2.
Proof. apply filter_app. Qed.

Lemma engine_calls_all (evs : list Event) :
  Forall (λ ev, is_call ev = true) evs → engine_calls evs = evs.
Proof.
  induction 1 as [|ev evs Hev _ IH]; [done|].
  unfold engine_calls in *. rewrite filter_cons_True by (by rewrite Hev).
  by rewrite IH.
Qed.

Lemma engine_calls_prints (outs : list Output) : engine_calls (EvPrint <$> outs) = [].
Proof.
  induction outs as [|o outs IH]; [done|].
  unfold engine_calls in *. rewrite fmap_cons, filter_cons_False by (simpl; tauto).
  exact IH.
Qed.

Lemma engine_calls_lockstep (evs : list Event) :
  Forall (λ ev, is_call ev = lockstep_event ev) evs →
  engine_calls evs = lockstep_trace evs.
Proof.
  induction 1 as [|ev evs Hev _ IH]; [done|].
  unfold engine_calls, lockstep_trace in *. rewrite !filter_cons, IH.
  repeat case_decide; try done; rewrite Hev in *; tauto.
Qed.

Lemma engine_calls_prefix (evs all : list Event) :
  evs `prefix_of` all → Forall (λ ev, is_call ev = true) all →
  engine_calls evs = evs.
Proof.
  intros [rest ->] [Hevs _]%Forall_app. by apply engine_calls_all.
Qed.

Lemma teardown_calls_all_calls (ps : list nat) :
  Forall (λ ev : Event, is_call ev = true) (teardown_calls ps).
Proof. induction ps as [|p ps IH]; [constructor|]. by repeat constructor. Qed.

Lemma teardown_loop_prefix ps st evs st' r :
  for_each (teardown_one w) ps st = (evs, st', r) →
  evs `prefix_of` teardown_calls ps.
Proof.
  revert evs st' r. induction ps as [|p ps IH]; intros evs st' r.
  - by intros [= <- <- <-].
  - rewrite for_each_cons, run_bind. unfold teardown_one at 1.
    rewrite run_bind. unfold call at 1 2.
    change (teardown_calls (p :: ps)) with (EvQuit p :: EvClose p :: teardown_calls ps).
    destruct (w_quit w p) as [[]|e];
      [|intros [= <- <- <-]; apply prefix_cons, prefix_nil].
    destruct (w_close w p) as [[]|e];
      [|intros [= <- <- <-]; apply prefix_cons, prefix_cons, prefix_nil].
    cbv beta iota.
    destruct (for_each (teardown_one w) ps st) as [[evs1 st1] r1].
    intros [= <- <- <-]. apply prefix_cons, prefix_cons. by apply (IH _ _ _ eq_refl).
Qed.

Lemma teardown_prefix st evs st' r :
  teardown w st = (evs, st', r) → evs `prefix_of` teardown_calls (procs st).
Proof.
  unfold teardown. rewrite run_bind. unfold get at 1. cbv beta iota.
  destruct (for_each (teardown_one w) (procs st) st) as [[evs1 st1] r1] eqn:H1.
  apply teardown_loop_prefix in H1. by intros [= <- <- <-].
Qed.

(** The calls of the loop are its steps, observations and diffs. *)
Lemma for_range_tick_calls names ctrls start n st evs st' r :
  for_range (tick FLAGS w names ctrls) start n st = (evs, st', r) →
  engine_calls evs = lockstep_trace evs.
Proof.
  intros Hrun. apply engine_calls_lockstep.
  by apply (for_range_tick_keeps FLAGS w (λ _, True)
              (λ ev, is_call ev = lockstep_event ev)) in Hrun as [_ ?].
Qed.

(** The calls of the [try] block are an initial part of: the replay
    info of instance 0, [start_replay] on every instance, the
    iterations of the loop. *)
Lemma try_body_calls names n st evs st' r :
  try_body FLAGS w names (seq 0 n) st = (evs, st', r) →
  engine_calls evs `prefix_of` try_calls FLAGS n.
Proof.
  intros Hrun. apply try_body_cases in Hrun
    as [(_ & -> & _)|(c0 & rest & Hctrls & Hcases)]; [apply prefix_nil|].
  assert (c0 = 0) as ->.
  { destruct n; [done|]. by injection Hctrls as <- _. }
  unfold try_calls.
  destruct Hcases as [(e & _ & -> & _)|(_ & evs1 & -> & Hcases)].
  { apply prefix_cons, prefix_nil. }
  rewrite engine_calls_app.
  change (engine_calls [EvPrint OutRule; EvReplayInfo 0; EvPrint OutReplayInfo;
                        EvPrint OutRule]) with [EvReplayInfo 0].
  apply prefix_cons.
  destruct Hcases as [(e & pre & c & post & Hl & -> & _)|(evs2 & _ & -> & Hloop)].
  - rewrite engine_calls_all by (apply Forall_fmap, Forall_true; done).
    apply prefix_app_r. exists (EvStartReplay <$> post).
    rewrite Hl, <- fmap_app. f_equal. by rewrite <- app_assoc.
  - rewrite engine_calls_app.
    rewrite (engine_calls_all (EvStartReplay <$> _))
      by (apply Forall_fmap, Forall_true; done).
    apply prefix_app.
    rewrite (for_range_tick_calls _ _ _ _ _ _ _ _ Hloop).
    by apply for_range_tick_frame in Hloop as [? _].
Qed.

(** X5. The calls a run makes into its collaborators, in order: the
    replay is loaded and the binaries are launched in the order named,
    and the run ends there if one of these raises; otherwise follow an
    initial part of the [try] block's calls (the replay info of
    instance 0, [start_replay] on every instance in order, then the
    iterations of the loop, each stepping all, observing all, diffing
    the peers) and then an initial part of the teardown (quit and close,
    instance by instance). *)
Theorem run_call_order argv :
  let n := length (drop 1 argv) in
  let calls := engine_calls (run FLAGS w argv).1.1 in
  calls `prefix_of` startup_calls n
  ∨ ∃ tried torn,
      calls = startup_calls n ++ tried ++ torn
      ∧ tried `prefix_of` try_calls FLAGS n
      ∧ torn `prefix_of` teardown_calls (seq 0 n).
Proof.
  intros n calls. subst calls.
  destruct (run_cases FLAGS w argv)
    as [[-> ->]|(prog & names & -> & Hcases)]; [left; apply prefix_nil|].
  assert (n = length names) as -> by (subst n; simpl; by rewrite drop_0).
  assert (∀ m, engine_calls (startup_calls m) = startup_calls m) as Hstartup.
  { intros m. apply engine_calls_all. constructor; [done|].
    apply Forall_fmap, Forall_true. done. }
  destruct Hcases
    as [(e & _ & ->)
       |[(e & k & Hk & _ & ->)
        |(evs & st & r & evsd & rd & _ & _ & Htry & Hdown & ->)]].
  - left. apply prefix_cons, prefix_nil.
  - left. cbv beta iota delta [fst]. rewrite Hstartup. unfold startup_calls.
    apply prefix_cons.
    replace (length names) with (S k + (length names - S k)) by lia.
    rewrite seq_app, fmap_app. by apply prefix_app_r.
  - right. cbv beta iota delta [fst].
    pose proof (try_body_frame _ _ _ _ _ _ _ _ Htry) as (_ & _ & Hprocs & _ & _).
    apply teardown_prefix in Hdown. rewrite Hprocs in Hdown. simpl in Hdown.
    exists (engine_calls evs), evsd. split_and!.
    + rewrite !engine_calls_app, Hstartup.
      rewrite (engine_calls_prefix _ _ Hdown (teardown_calls_all_calls _)).
      assert (engine_calls (report_events FLAGS names st (outcome r rd)) = []) as ->
        by (unfold report_events; destruct (outcome r rd);
            [apply engine_calls_prints|done]).
      by rewrite app_nil_r.
    + by eapply try_body_calls.
    + done.
Qed.

End CallOrder.

(** ** What can make a run fail *)

Section Progress.

Context {Fields : Type} `{!DiffEngine Fields}.
Variable FLAGS : Flags.
Variable w : World Fields.

(** With a counter and a name for every observation, the diff step
    does not raise. *)
Lemma diff_observations_ok names k obs st evs st' r :
  length obs ≤ length (diff_counts st) →
  length obs ≤ length names →
  diff_observations FLAGS names k obs st = (evs, st', r) →
  r = Ok (_clear_non_deterministic_fields <$> obs).
Proof.
  destruct obs as [|o peers]; [by intros _ _ [= <- <- <-]|].
  simpl length. intros Hdc Hnames.
  intros (evs1 & r1 & -> & -> & Hcases)%diff_observations_cases.
  destruct (existsb diff_truthy _).
  - destruct Hcases as (evs2 & -> & Hloop).
    destruct (record_loop_counts FLAGS names
                (compute_diff (_clear_non_deterministic_fields o)
                   <$> (_clear_non_deterministic_fields <$> peers)) 1 st)
      as (evs3 & st3 & Hok & _); [rewrite !length_fmap; lia..|].
    rewrite !length_fmap in Hok. rewrite Hok in Hloop. by injection Hloop as <- <- <-.
  - by destruct Hcases as (_ & _ & ->).
Qed.

(** With at least one controller, and a counter and a name for each, a
    tick raises only what a step or an observation of the tick raises. *)
Lemma tick_progress names ctrls k st evs st' r :
  ctrls ≠ [] →
  length ctrls ≤ length names →
  length ctrls ≤ length (diff_counts st) →
  tick FLAGS w names ctrls k st = (evs, st', r) →
  (∃ b, r = Ok b
        ∧ ∀ c, c ∈ ctrls → w_step w k c = Ok () ∧ ∃ o, w_observe w k c = Ok o)
  ∨ (∃ e c, r = Raise e ∧ c ∈ ctrls
            ∧ (w_step w k c = Raise e ∨ w_observe w k c = Raise e)).
Proof.
  intros Hne Hnames Hdc Hrun. apply tick_cases in Hrun
    as [(e & pre & c & post & -> & _ & -> & _ & Hc)
       |[(e & pre & c & post & -> & _ & -> & _ & Hc)
        |(obs & evs3 & r3 & Hsteps & Hobs & _ & Hdiff & ->)]].
  - right. exists e, c. split; [done|]. split; [|by left].
    rewrite elem_of_app, elem_of_cons. tauto.
  - right. exists e, c. split; [done|]. split; [|by right].
    rewrite elem_of_app, elem_of_cons. tauto.
  - left. pose proof (Forall2_length _ _ _ Hobs) as Hlen.
    assert (∃ obs', r3 = Ok obs' ∧ length obs' = length obs) as (obs' & -> & Hlen').
    { destruct (FLAGS_diff FLAGS).
      - apply diff_observations_ok in Hdiff as ->; [|lia..].
        eexists. split; [done|]. by rewrite length_fmap.
      - destruct Hdiff as (_ & _ & ->). by eexists. }
    destruct (lookup_lt_is_Some_2 obs' 0) as [o0 ->].
    { destruct ctrls; [done|]. simpl in Hlen. lia. }
    eexists. split; [done|]. intros c Hc. split; [by apply Hsteps|].
    apply list_elem_of_lookup in Hc as [i Hi].
    destruct (Forall2_lookup_l _ _ _ _ _ Hobs Hi) as (o & _ & Ho). by exists o.
Qed.

Lemma for_range_tick_progress names ctrls start n st evs st' r :
  ctrls ≠ [] →
  length ctrls ≤ length names →
  length ctrls ≤ length (diff_counts st) →
  for_range (tick FLAGS w names ctrls) start n st = (evs, st', r) →
  r = Ok ()
  ∨ (∃ e k c, r = Raise e ∧ start ≤ k < start + n ∧ c ∈ ctrls
              ∧ (w_step w k c = Raise e ∨ w_observe w k c = Raise e)).
Proof.
  intros Hne Hnames. revert start st evs st' r.
  induction n as [|n IH]; intros start st evs st' r Hdc.
  - intros [= <- <- <-]. by left.
  - rewrite for_range_S, run_bind.
    destruct (tick FLAGS w names ctrls start st) as [[evs1 st1] r1] eqn:H1.
    pose proof (tick_spec _ _ _ _ _ _ _ _ _ H1) as (_ & _ & _ & _ & Hlen & _).
    apply tick_progress in H1 as [(b & -> & _)|(e & c & -> & Hc & Hfail)]; try done.
    + destruct b.
      * rewrite run_ret. intros [= <- <- <-]. by left.
      * destruct (for_range (tick FLAGS w names ctrls) (S start) n st1)
          as [[evs2 st2] r2] eqn:H2.
        apply IH in H2 as [->|(e & k & c & -> & Hk & Hc & Hfail)]; [| |lia];
          intros [= <- <- <-]; [by left|].
        right. exists e, k, c. split_and!; try done; lia.
    + intros [= <- <- <-]. right. exists e, start, c. split_and!; try done; lia.
Qed.

Lemma try_body_progress names n st evs st' r :
  0 < n → n ≤ length names → n ≤ length (diff_counts st) →
  try_body FLAGS w names (seq 0 n) st = (evs, st', r) →
  r = Ok ()
  ∨ (∃ e, r = Raise e
          ∧ (w_replay_info w 0 = Raise e
             ∨ (∃ c, c < n ∧ w_start_replay w c = Raise e)
             ∨ (∃ k c, k < Z.to_nat (FLAGS_count FLAGS) ∧ c < n
                       ∧ (w_step w k c = Raise e ∨ w_observe w k c = Raise e)))).
Proof.
  intros Hn Hnames Hdc Hrun. apply try_body_cases in Hrun
    as [(Hnil & _)|(c0 & rest & Hctrls & Hcases)].
  { destruct n; [lia|done]. }
  assert (c0 = 0) as ->.
  { destruct n; [done|]. by injection Hctrls as <- _. }
  destruct Hcases as [(e & He & _ & _ & ->)|(_ & evs1 & _ & Hcases)].
  { right. exists e. split; [done|]. by left. }
  destruct Hcases as [(e & pre & c & post & Hl & _ & Hc & _ & ->)|(evs2 & _ & _ & Hloop)].
  - right. exists e. split; [done|]. right. left. exists c. split; [|done].
    assert (c ∈ seq 0 n) as Hin
      by (rewrite Hl, elem_of_app, elem_of_cons; tauto).
    apply elem_of_seq in Hin. lia.
  - apply for_range_tick_progress in Hloop
      as [->|(e & k & c & -> & Hk & Hc & Hfail)];
      rewrite ?length_seq; try done; [by left| |by destruct n].
    right. exists e. split; [done|]. right. right. exists k, c.
    apply elem_of_seq in Hc. split_and!; try done; lia.
Qed.

Lemma teardown_raises st evs st' e :
  teardown w st = (evs, st', Raise e) →
  ∃ p, p ∈ procs st ∧ (w_quit w p = Raise e ∨ w_close w p = Raise e).
Proof.
  unfold teardown. rewrite run_bind. unfold get at 1. cbv beta iota.
  generalize (procs st). intros ps.
  destruct (for_each (teardown_one w) ps st) as [[evs1 st1] r1] eqn:H1.
  intros [= <- <- ->]. revert evs1 st1 H1.
  induction ps as [|p ps IH]; intros evs1 st1; [done|].
  rewrite for_each_cons, run_bind. unfold teardown_one at 1.
  rewrite run_bind. unfold call at 1 2.
  destruct (w_quit w p) as [[]|e1] eqn:Hq.
  - destruct (w_close w p) as [[]|e2] eqn:Hc.
    + cbv beta iota.
      destruct (for_each (teardown_one w) ps st) as [[evs2 st2] r2] eqn:H2.
      intros [= <- <- ->]. destruct (IH _ _ eq_refl) as (q & Hq' & Hfail).
      exists q. split; [by right|done].
    + intros [= <- <- ->]. exists p. split; [by left|]. by right.
  - intros [= <- <- ->]. exists p. split; [by left|]. by left.
Qed.

(** X6. With at least one binary named, no indexing of [controllers],
    [version_names], [diff_counts] or [obs] in [main] goes out of range:
    whenever a run ends with an exception, some collaborator call
    (loading the replay, a launch, the replay info, a [start_replay], a
    step, an observation, a [quit] or a [close]) raised that very
    exception.  (The diff engine and [print] are taken not to raise.) *)
Theorem main_raises_only_what_is_raised prog binary rest evs st e :
  run FLAGS w (prog :: binary :: rest) = (evs, st, Raise e) →
  raised_by w e.
Proof.
  intros Hrun. unfold raised_by.
  destruct (run_cases FLAGS w (prog :: binary :: rest))
    as [[? _]|(prog' & names & [= <- <-] & Hcases)]; [done|].
  destruct Hcases
    as [(e1 & He1 & Hrun1)
       |[(e1 & k & Hk & He1 & Hrun1)
        |(evs1 & st1 & r & evsd & rd & _ & _ & Htry & Hdown & Hrun1)]];
    rewrite Hrun1 in Hrun.
  - injection Hrun as _ _ ->. by left.
  - injection Hrun as _ _ ->. right. left. by exists k.
  - injection Hrun as _ _ Hout. unfold outcome in Hout.
    destruct rd as [[]|e'].
    + assert (r = Raise e) as -> by (by destruct r as [[]|[]]).
      apply try_body_progress in Htry
        as [?|(e1 & [= <-] & [?|[(c & _ & ?)|(k & c & _ & _ & [?|?])]])];
        simpl; rewrite ?length_replicate; try done; try lia.
      * right. right. left. by exists 0.
      * right. right. right. left. by exists c.
      * do 4 right. left. by exists k, c.
      * do 5 right. left. by exists k, c.
    + injection Hout as ->.
      apply teardown_raises in Hdown as (p & _ & [?|?]).
      * do 6 right. left. by exists p.
      * do 7 right. by exists p.
Qed.

End Progress.

(** ** A run in which no call raises *)

Section CleanRun.

Context {Fields : Type} `{!DiffEngine Fields}.
Variable FLAGS : Flags.
Variable w : World Fields.

Lemma iterations_run_never over start n :
  (∀ k, start ≤ k < start + n → over k = false) →
  iterations_run over start n = n.
Proof.
  revert start. induction n as [|n IH]; intros start Hnever; [done|].
  simpl. rewrite Hnever by lia. f_equal. apply IH. intros k Hk. apply Hnever. lia.
Qed.

(** X7. When at least one binary is named and no call raises, [main]
    returns, and its calls are exactly: the replay loaded; every binary
    launched in the order named; the replay info of instance 0;
    [start_replay] on every instance; the complete iterations of the
    loop up to the first in which the reference's observation carries a
    player result, and all [FLAGS.count] of them when there is none;
    then [quit] and [close] on every instance. *)
Theorem clean_run_calls prog names :
  names ≠ [] →
  answers_all w (length names) (Z.to_nat (FLAGS_count FLAGS)) →
  let n := length names in
  let m := iterations_run (reference_over w 0) 0 (Z.to_nat (FLAGS_count FLAGS)) in
  ∃ all st,
    run FLAGS w (prog :: names) = (all, st, Ok ())
    ∧ engine_calls all
      = startup_calls n
        ++ EvReplayInfo 0 :: (EvStartReplay <$> seq 0 n)
        ++ (seq 0 m ≫= lockstep_calls (FLAGS_diff FLAGS) (seq 0 n))
        ++ teardown_calls (seq 0 n)
    ∧ ((∀ k, k < Z.to_nat (FLAGS_count FLAGS) → reference_over w 0 k = false) →
       m = Z.to_nat (FLAGS_count FLAGS)).
Proof.
  intros Hne [Hreplay Hall] n m.
  assert (0 < n) as Hn by (subst n; destruct names; [done|simpl; lia]).
  destruct (try_body FLAGS w names (seq 0 n) (at_try n)) as [[evs st] r] eqn:Htry.
  pose proof (try_body_frame _ _ _ _ _ _ _ _ Htry) as (_ & _ & Hprocs & _ & _).
  assert (r = Ok ()) as ->.
  { pose proof Htry as Hprog. apply try_body_progress in Hprog
      as [?|(e & -> & [He|[(c & Hc & He)|(k & c & Hk & Hc & He)]])];
      simpl; rewrite ?length_replicate; try done.
    - destruct (Hall 0 Hn) as (_ & Hinfo & _). congruence.
    - destruct (Hall c Hc) as (_ & _ & Hstart & _). congruence.
    - destruct (Hall c Hc) as (_ & _ & _ & _ & _ & Hloop).
      destruct (Hloop k Hk) as [Hstep [o Ho]]. destruct He; congruence. }
  assert (teardown w st = (teardown_calls (seq 0 n), st, Ok ())) as Hdown.
  { rewrite run_teardown_ok; [by rewrite Hprocs|].
    intros p Hp. rewrite Hprocs in Hp. simpl in Hp. apply elem_of_seq in Hp.
    destruct (Hall p) as (_ & _ & _ & Hq & Hc & _); [lia|done]. }
  assert (∀ j, j < length names → w_launch w j = Ok ()) as Hlaunch
    by (intros j Hj; by destruct (Hall j Hj) as (? & _)).
  pose proof (run_from_try FLAGS w prog names _ _ _ _ _
                Hreplay Hlaunch Htry Hdown) as Hrun.
  eexists _, _. split; [exact Hrun|]. split; cycle 1.
  { intros Hnever. apply iterations_run_never. intros k Hk. apply Hnever. lia. }
  assert (engine_calls evs
          = EvReplayInfo 0 :: (EvStartReplay <$> seq 0 n)
            ++ (seq 0 m ≫= lockstep_calls (FLAGS_diff FLAGS) (seq 0 n))) as Hevs.
  { apply try_body_cases in Htry
      as [(_ & _ & _ & ?)|(c0 & rest & Hctrls & Hcases)]; [done|].
    assert (c0 = 0) as ->.
    { destruct n; [done|]. by injection Hctrls as <- _. }
    destruct Hcases as [(e & _ & _ & _ & ?)|(_ & evs1 & -> & Hcases)]; [done|].
    destruct Hcases as [(e & pre & c & post & _ & _ & _ & _ & ?)
                       |(evs2 & _ & -> & Hloop)]; [done|].
    rewrite !engine_calls_app.
    change (engine_calls [EvPrint OutRule; EvReplayInfo 0; EvPrint OutReplayInfo;
                          EvPrint OutRule]) with [EvReplayInfo 0].
    rewrite (engine_calls_all (EvStartReplay <$> _))
      by (apply Forall_fmap, Forall_true; done).
    rewrite (for_range_tick_calls _ _ _ _ _ _ _ _ _ _ Hloop).
    apply for_range_tick_spec with (c0 := 0) in Hloop as [_ Hfull];
      [|by destruct n].
    by rewrite (Hfull () eq_refl). }
  rewrite !engine_calls_app, Hevs.
  rewrite (engine_calls_all (startup_calls _))
    by (constructor; [done|]; apply Forall_fmap, Forall_true; done).
  rewrite (engine_calls_all (teardown_calls _)) by apply teardown_calls_all_calls.
  unfold outcome, report_events. rewrite engine_calls_prints, app_nil_r.
  simpl. by rewrite <- !app_assoc.
Qed.

End CleanRun.

(** ** The loop's calls within a whole run *)

Section RunLoop.

Context {Fields : Type} `{!DiffEngine Fields}.
Variable FLAGS : Flags.
Variable w : World Fields.

Lemma lockstep_trace_none (evs : list Event) :
  Forall (λ ev, lockstep_event ev = false) evs → lockstep_trace evs = [].
Proof.
  induction 1 as [|ev evs Hev _ IH]; [done|].
  by rewrite lockstep_trace_cons, Hev.
Qed.

Lemma lockstep_trace_none_prefix (evs all : list Event) :
  evs `prefix_of` all → Forall (λ ev, lockstep_event ev = false) all →
  lockstep_trace evs = [].
Proof.
  intros [rest ->] [Hevs _]%Forall_app. by apply lockstep_trace_none.
Qed.

Lemma lockstep_trace_startup n : lockstep_trace (startup_calls n) = [].
Proof.
  apply lockstep_trace_none. constructor; [done|].
  apply Forall_fmap, Forall_true. done.
Qed.

Lemma lockstep_trace_teardown (ps : list nat) :
  Forall (λ ev : Event, lockstep_event ev = false) (teardown_calls ps).
Proof. induction ps as [|p ps IH]; [constructor|]. by repeat constructor. Qed.

Lemma lockstep_trace_report_events names st r :
  lockstep_trace (report_events FLAGS names st r) = [].
Proof.
  destruct r; [|done]. apply lockstep_trace_none, Forall_fmap, Forall_true. done.
Qed.

(** The loop's calls in the [try] block are those of its loop. *)
Lemma try_body_lockstep_trace names ctrls st evs st' r :
  try_body FLAGS w names ctrls st = (evs, st', r) →
  lockstep_trace evs
    `prefix_of` (seq 0 (Z.to_nat (FLAGS_count FLAGS))
                   ≫= lockstep_calls (FLAGS_diff FLAGS) ctrls)
  ∧ (FLAGS_diff FLAGS = false → st' = st).
Proof.
  intros Hrun. apply try_body_cases in Hrun
    as [(_ & -> & -> & _)|(c0 & rest & Hctrls & Hcases)].
  { split; [apply prefix_nil|done]. }
  destruct Hcases as [(e & _ & -> & -> & _)|(_ & evs1 & -> & Hcases)].
  { split; [apply prefix_nil|done]. }
  rewrite lockstep_trace_app.
  change (lockstep_trace [EvPrint OutRule; EvReplayInfo c0; EvPrint OutReplayInfo;
                          EvPrint OutRule]) with (@nil Event).
  rewrite app_nil_l.
  destruct Hcases as [(e & pre & c & post & _ & -> & _ & -> & _)
                     |(evs2 & _ & -> & Hloop)].
  - rewrite lockstep_trace_none by (apply Forall_fmap, Forall_true; done).
    split; [apply prefix_nil|done].
  - rewrite lockstep_trace_app.
    rewrite (lockstep_trace_none (EvStartReplay <$> _))
      by (apply Forall_fmap, Forall_true; done).
    rewrite app_nil_l.
    by apply for_range_tick_frame in Hloop as (? & _ & _ & _ & _ & _ & ?).
Qed.

(** The loop's calls in a whole run. *)
Lemma run_lockstep_trace argv :
  lockstep_trace (run FLAGS w argv).1.1
    `prefix_of` (seq 0 (Z.to_nat (FLAGS_count FLAGS))
                   ≫= lockstep_calls (FLAGS_diff FLAGS) (seq 0 (length (drop 1 argv)))).
Proof.
  destruct (run_cases FLAGS w argv)
    as [[-> ->]|(prog & names & -> & Hcases)]; [apply prefix_nil|].
  simpl drop. rewrite drop_0.
  destruct Hcases
    as [(e & _ & ->)
       |[(e & k & Hk & _ & ->)
        |(evs & st & r & evsd & rd & _ & _ & Htry & Hdown & ->)]];
    cbv beta iota delta [fst].
  - apply prefix_nil.
  - rewrite lockstep_trace_startup. apply prefix_nil.
  - pose proof (try_body_frame _ _ _ _ _ _ _ _ Htry) as (_ & _ & Hprocs & _ & _).
    apply teardown_prefix in Hdown.
    rewrite !lockstep_trace_app, lockstep_trace_startup,
      (lockstep_trace_none_prefix _ _ Hdown (lockstep_trace_teardown _)),
      lockstep_trace_report_events, !app_nil_r, app_nil_l.
    by apply try_body_lockstep_trace in Htry as [? _].
Qed.

(** X8. With [FLAGS.count] zero or negative no instance is ever stepped
    or observed and no diff is computed, whatever else the run does. *)
Theorem no_budget_no_step argv :
  (FLAGS_count FLAGS ≤ 0)%Z →
  lockstep_trace (run FLAGS w argv).1.1 = [].
Proof.
  intros Hcount. pose proof (run_lockstep_trace argv) as Hpre.
  replace (Z.to_nat (FLAGS_count FLAGS)) with 0 in Hpre by lia.
  by apply prefix_nil_inv in Hpre.
Qed.

(** X9. With [FLAGS.diff] off, a run computes no diff and never touches
    the counters: at its end [diff_paths] is empty and every entry of
    [diff_counts] is 0. *)
Theorem diff_off_compares_nothing argv :
  FLAGS_diff FLAGS = false →
  let '(all, st, _) := run FLAGS w argv in
  (∀ k i, EvComputeDiff k i ∉ all)
  ∧ diff_paths st = []
  ∧ Forall (λ c, c = 0%Z) (diff_counts st).
Proof.
  intros Hdiff. pose proof (run_lockstep_trace argv) as Hpre.
  rewrite Hdiff in Hpre.
  assert (∀ all : list Event,
            lockstep_trace all
              `prefix_of` (seq 0 (Z.to_nat (FLAGS_count FLAGS))
                             ≫= lockstep_calls false (seq 0 (length (drop 1 argv)))) →
            ∀ k i, EvComputeDiff k i ∉ all) as Hnone.
  { intros all [rest Hall] k i Hin.
    assert (EvComputeDiff k i ∈ lockstep_trace all) as Hin'
      by (unfold lockstep_trace; by apply list_elem_of_filter).
    assert (EvComputeDiff k i
              ∈ seq 0 (Z.to_nat (FLAGS_count FLAGS))
                  ≫= lockstep_calls false (seq 0 (length (drop 1 argv)))) as Hin''
      by (rewrite Hall, elem_of_app; by left).
    apply list_elem_of_bind in Hin'' as (k' & Hin'' & _).
    unfold lockstep_calls in Hin''. rewrite app_nil_r, elem_of_app in Hin''.
    destruct Hin'' as [H|H]; apply list_elem_of_fmap in H as (c & ? & _); done. }
  destruct (run_cases FLAGS w argv)
    as [[-> Hrun]|(prog & names & -> & Hcases)].
  { rewrite Hrun in *. split; [by apply Hnone|]. by split. }
  destruct Hcases
    as [(e & _ & Hrun)
       |[(e & k & Hk & _ & Hrun)
        |(evs & st & r & evsd & rd & _ & _ & Htry & Hdown & Hrun)]];
    rewrite Hrun in *; (split; [by apply Hnone|]); [by split..|].
  apply try_body_lockstep_trace in Htry as [_ Hsame].
  rewrite (Hsame Hdiff). simpl. split; [done|].
  apply Forall_replicate. done.
Qed.

End RunLoop.

(** ** The path counter *)

Section PathTable.

Context {Fields : Type} `{!DiffEngine Fields}.
Variable FLAGS : Flags.
Variable w : World Fields.

Lemma counter_incr_keys {K} `{EqDecision K} (k x : K) (c : Counter K) :
  x ∈ (counter_incr k c).*1 → x = k ∨ x ∈ c.*1.
Proof.
  induction c as [|[k0 v] c IH]; simpl.
  - intros ->%list_elem_of_singleton. by left.
  - case_decide as Hk; simpl; rewrite !elem_of_cons; [tauto|].
    intros [->|Hx]; [tauto|]. destruct (IH Hx); tauto.
Qed.

Lemma counter_incr_table path (c : Counter ProtoPath) :
  path_table_ok c →
  path_table_ok (counter_incr (with_anonymous_array_indices path) c).
Proof.
  unfold path_table_ok. induction c as [|[k0 v] c IH]; simpl.
  - intros _. split; [apply NoDup_singleton|].
    constructor; [|done]. simpl. split; [lia|by exists path].
  - rewrite NoDup_cons, Forall_cons. simpl.
    intros [[Hk0 Hnodup] [[Hv Hanon] Hall]].
    case_decide as Hk; simpl.
    + rewrite NoDup_cons, Forall_cons. simpl. split_and!; try done. lia.
    + destruct IH as [Hnodup' Hall']; [done|].
      rewrite NoDup_cons, Forall_cons. simpl. split_and!; try done.
      intros [?|?]%counter_incr_keys; done.
Qed.

(** The [try] block keeps what both counter updates keep. *)
Lemma try_body_keeps (P : State → Prop) names ctrls st evs st' r :
  (∀ st i c, P st → diff_counts st !! i = Some c →
     P {| procs := procs st;
          diff_counts := <[i := (c + 1)%Z]> (diff_counts st);
          diff_paths := diff_paths st |}) →
  (∀ st path, P st →
     P {| procs := procs st;
          diff_counts := diff_counts st;
          diff_paths := counter_incr (with_anonymous_array_indices path)
                          (diff_paths st) |}) →
  try_body FLAGS w names ctrls st = (evs, st', r) →
  P st → P st'.
Proof.
  intros HPcount HPpath Hrun HP. apply try_body_cases in Hrun
    as [(_ & _ & -> & _)|(c0 & rest & _ & Hcases)]; [done|].
  destruct Hcases as [(e & _ & _ & -> & _)|(_ & evs1 & _ & Hcases)]; [done|].
  destruct Hcases as [(e & pre & c & post & _ & _ & _ & -> & _)
                     |(evs2 & _ & _ & Hloop)]; [done|].
  by apply (for_range_tick_keeps FLAGS w P (λ _, True)) in Hloop as [? _].
Qed.

(** X10. At the end of every run the keys of [diff_paths] are distinct,
    each is an anonymized path and each is counted at least once; so the
    report lists no path twice. *)
Theorem path_table_well_formed argv :
  let '(_, st, _) := run FLAGS w argv in
  path_table_ok (diff_paths st)
  ∧ NoDup (most_common 100 (diff_paths st)).*1.
Proof.
  assert (∀ c : Counter ProtoPath,
            path_table_ok c → path_table_ok c ∧ NoDup (most_common 100 c).*1)
    as Hreport.
  { intros c Hc. split; [done|]. destruct Hc as [Hnodup _].
    unfold most_common. rewrite fmap_take.
    eapply sublist_NoDup; [|apply sublist_take].
    by rewrite (sorted_by_count_perm c). }
  assert (path_table_ok (@nil (ProtoPath * Z))) as Hnil
    by (split; [constructor|constructor]).
  destruct (run_cases FLAGS w argv)
    as [[-> ->]|(prog & names & -> & Hcases)]; [by apply Hreport|].
  destruct Hcases
    as [(e & _ & ->)
       |[(e & k & Hk & _ & ->)
        |(evs & st & r & evsd & rd & _ & _ & Htry & Hdown & ->)]];
    [by apply Hreport..|].
  apply Hreport.
  apply (try_body_keeps (λ st, path_table_ok (diff_paths st))) in Htry; try done.
  intros st0 path. apply counter_incr_table.
Qed.

End PathTable.

(** ** How far the instance counters can go *)

Section CounterBounds.

Context {Fields : Type} `{!DiffEngine Fields}.
Variable FLAGS : Flags.
Variable w : World Fields.

(** One entry of [diffs] leaves its instance counter as it is or adds
    one to it. *)
Lemma record_diff_bump names i diff st evs st' r c :
  record_diff FLAGS names (i, diff) st = (evs, st', r) →
  diff_counts st !! i = Some c →
  diff_counts st' !! i = Some c ∨ diff_counts st' !! i = Some (c + 1)%Z.
Proof.
  intros Hrun Hc. destruct (names !! i) as [name|] eqn:Hname.
  - rewrite (run_record_diff _ _ _ _ name c) in Hrun by done.
    destruct (diff_truthy diff); injection Hrun as <- <- <-; [|by left].
    right. simpl. apply list_lookup_insert_eq. by eapply lookup_lt_Some.
  - revert Hrun. unfold record_diff. destruct (diff_truthy diff).
    + rewrite run_bind, run_index_raise by done. intros [= <- <- <-]. by left.
    + intros [= <- <- <-]. by left.
Qed.

(** The entries of a tick, each for another instance: every counter is
    left as it is or grows by one. *)
Lemma record_loop_bump names (entries : list (nat * DiffResult)) st evs st' r :
  NoDup entries.*1 →
  for_each (record_diff FLAGS names) entries st = (evs, st', r) →
  ∀ j c, diff_counts st !! j = Some c →
         diff_counts st' !! j = Some c ∨ diff_counts st' !! j = Some (c + 1)%Z.
Proof.
  revert st evs st' r. induction entries as [|[i diff] entries IH];
    intros st evs st' r Hnodup.
  - intros [= <- <- <-] j c Hc. by left.
  - apply NoDup_cons in Hnodup as [Hi Hnodup].
    rewrite for_each_cons, run_bind.
    destruct (record_diff FLAGS names (i, diff) st) as [[evs1 st1] r1] eqn:H1.
    pose proof (record_diff_frame _ _ _ _ _ _ _ _ H1) as (_ & _ & _ & _ & _ & Hother).
    assert (∀ j c, diff_counts st !! j = Some c →
                   diff_counts st1 !! j = Some c
                   ∨ diff_counts st1 !! j = Some (c + 1)%Z) as Hfirst.
    { intros j c Hc. destruct (decide (j = i)) as [->|Hne].
      - by eapply record_diff_bump.
      - left. by rewrite Hother. }
    destruct r1 as [[]|e]; [|by intros [= <- <- <-]].
    destruct (for_each (record_diff FLAGS names) entries st1)
      as [[evs2 st2] r2] eqn:H2.
    pose proof (record_loop_frame _ _ _ _ _ _ _ H2) as (_ & _ & _ & _ & _ & Hrest).
    intros [= <- <- <-] j c Hc. destruct (decide (j = i)) as [->|Hne].
    + rewrite Hrest by done. by apply Hfirst.
    + rewrite <- (Hother j Hne) in Hc. by eapply IH.
Qed.

(** A tick adds at most one to each counter. *)
Lemma tick_bump names ctrls k st evs st' r :
  tick FLAGS w names ctrls k st = (evs, st', r) →
  ∀ j c, diff_counts st !! j = Some c →
         diff_counts st' !! j = Some c ∨ diff_counts st' !! j = Some (c + 1)%Z.
Proof.
  intros Hrun. apply tick_cases in Hrun
    as [(e & pre & c & post & _ & -> & _)
       |[(e & pre & c & post & _ & -> & _)
        |(obs & evs3 & r3 & _ & _ & _ & Hdiff & _)]]; [by left..|].
  destruct (FLAGS_diff FLAGS); [|destruct Hdiff as (_ & -> & _); by left].
  destruct obs as [|o peers]; [injection Hdiff as _ <- _; by left|].
  apply diff_observations_cases in Hdiff as (evs1 & r1 & _ & _ & Hcases).
  destruct (existsb diff_truthy _).
  - destruct Hcases as (evs2 & _ & Hloop).
    eapply record_loop_bump; [|exact Hloop].
    rewrite fst_zip by (rewrite length_seq, !length_fmap; lia).
    apply NoDup_seq.
  - destruct Hcases as (_ & -> & _). by left.
Qed.

(** [n] iterations add at most [n]. *)
Lemma for_range_tick_bump names ctrls start n st evs st' r :
  for_range (tick FLAGS w names ctrls) start n st = (evs, st', r) →
  ∀ j c, diff_counts st !! j = Some c →
         ∃ c', diff_counts st' !! j = Some c' ∧ (c ≤ c' ≤ c + Z.of_nat n)%Z.
Proof.
  revert start st evs st' r. induction n as [|n IH]; intros start st evs st' r.
  - intros [= <- <- <-] j c Hc. exists c. split; [done|lia].
  - rewrite for_range_S, run_bind.
    destruct (tick FLAGS w names ctrls start st) as [[evs1 st1] r1] eqn:H1.
    pose proof (tick_bump _ _ _ _ _ _ _ H1) as Hfirst.
    intros Hrun j c Hc.
    assert (∃ c1, diff_counts st1 !! j = Some c1 ∧ (c ≤ c1 ≤ c + 1)%Z)
      as (c1 & Hc1 & Hb1)
      by (destruct (Hfirst j c Hc); eexists; (split; [done|lia])).
    destruct r1 as [[]|e].
    + rewrite run_ret in Hrun. injection Hrun as <- <- <-.
      exists c1. split; [done|lia].
    + destruct (for_range (tick FLAGS w names ctrls) (S start) n st1)
        as [[evs2 st2] r2] eqn:H2.
      injection Hrun as <- <- <-.
      destruct (IH _ _ _ _ _ H2 j c1 Hc1) as (c' & Hc' & Hb').
      exists c'. split; [done|lia].
    + injection Hrun as <- <- <-. exists c1. split; [done|lia].
Qed.

(** X11. At the end of every run each entry of [diff_counts] lies
    between 0 and the number of iterations the budget [FLAGS.count]
    allows: an instance's divergence count never exceeds the number of
    observations compared. *)
Theorem diff_counts_within_budget argv :
  let '(_, st, _) := run FLAGS w argv in
  Forall (λ c, (0 ≤ c ≤ Z.of_nat (Z.to_nat (FLAGS_count FLAGS)))%Z) (diff_counts st).
Proof.
  destruct (run_cases FLAGS w argv)
    as [[-> ->]|(prog & names & -> & Hcases)]; [constructor|].
  destruct Hcases
    as [(e & _ & ->)
       |[(e & k & Hk & _ & ->)
        |(evs & st & r & evsd & rd & _ & _ & Htry & Hdown & ->)]];
    [constructor..|].
  pose proof (try_body_frame _ _ _ _ _ _ _ _ Htry) as (_ & _ & _ & Hlen & _).
  apply Forall_lookup. intros j c' Hc'.
  assert (diff_counts (at_try (length names)) !! j = Some 0%Z) as Hj.
  { apply lookup_lt_Some in Hc'. rewrite Hlen in Hc'. simpl in *.
    rewrite length_replicate in Hc'. by apply lookup_replicate_2. }
  apply try_body_cases in Htry
    as [(_ & _ & -> & _)|(c0 & rest & _ & Hcases)];
    [rewrite Hj in Hc'; injection Hc' as <-; lia|].
  destruct Hcases as [(e & _ & _ & -> & _)|(_ & evs1 & _ & Hcases)];
    [rewrite Hj in Hc'; injection Hc' as <-; lia|].
  destruct Hcases as [(e & pre & c & post & _ & _ & _ & -> & _)
                     |(evs2 & _ & _ & Hloop)];
    [rewrite Hj in Hc'; injection Hc' as <-; lia|].
  destruct (for_range_tick_bump _ _ _ _ _ _ _ _ Hloop j 0%Z Hj) as (c & Hc & Hb).
  assert (c' = c) as -> by congruence. lia.
Qed.

End CounterBounds.

(** ** Engines that agree *)

Section Agreement.

Context {Fields : Type} `{!DiffEngine Fields}.
Variable FLAGS : Flags.
Variable w : World Fields.

Lemma alike_cleared_eq (obs1 obs2 : ResponseObservation Fields) :
  alike_up_to_tags obs1 obs2 →
  _clear_non_deterministic_fields obs1 = _clear_non_deterministic_fields obs2.
Proof.
  unfold alike_up_to_tags, _clear_non_deterministic_fields.
  rewrite (Forall2_fmap_eq _ clear_action _ _ action_alike_iff).
  rewrite (option_Forall2_fmap_eq _ clear_observation _ _ observation_alike_iff).
  by intros (-> & -> & -> & ->).
Qed.

Lemma printed_calls (evs : list Event) :
  Forall (λ ev, is_call ev = true) evs → printed evs = [].
Proof.
  induction 1 as [|ev evs Hev _ IH]; [done|]. by destruct ev.
Qed.

(** The engine finds no difference between a message and itself. *)
Hypothesis compute_diff_refl : ∀ o, diff_truthy (compute_diff o o) = false.

(** A tick in which every observation is, tags apart, the reference's:
    it prints nothing and touches no counter. *)
Lemma tick_quiet names ctrls k st evs st' r :
  (∀ c0 c o0 o, ctrls !! 0 = Some c0 → c ∈ ctrls →
     w_observe w k c0 = Ok o0 → w_observe w k c = Ok o → alike_up_to_tags o0 o) →
  tick FLAGS w names ctrls k st = (evs, st', r) →
  st' = st ∧ Forall (λ ev, is_call ev = true) evs.
Proof.
  intros Hsame Hrun. apply tick_cases in Hrun
    as [(e & pre & c & post & _ & -> & _ & -> & _)
       |[(e & pre & c & post & _ & -> & _ & -> & _)
        |(obs & evs3 & r3 & _ & Hobs & -> & Hdiff & _)]].
  - split; [done|]. apply Forall_fmap, Forall_true. done.
  - split; [done|]. apply Forall_app. split; apply Forall_fmap, Forall_true; done.
  - assert (st' = st ∧ Forall (λ ev, is_call ev = true) evs3) as [-> Hevs3].
    { destruct (FLAGS_diff FLAGS); [|by destruct Hdiff as (-> & -> & _)].
      destruct Hobs as [|c0 o0 rest peers Hc0 Hpeers];
        [by injection Hdiff as <- <- _|].
      apply diff_observations_cases in Hdiff as (evs1 & r1 & -> & _ & Hcases).
      assert (existsb diff_truthy
                (compute_diff (_clear_non_deterministic_fields o0)
                   <$> (_clear_non_deterministic_fields <$> peers)) = false) as Hnone.
      { apply not_true_is_false. intros (d & Hd & Htruthy)%existsb_exists.
        apply list_elem_of_In, list_elem_of_fmap in Hd as (p' & -> & Hp').
        apply list_elem_of_fmap in Hp' as (p & -> & Hp).
        apply list_elem_of_lookup in Hp as [i Hi].
        destruct (Forall2_lookup_r _ _ _ _ _ Hpeers Hi) as (c & Hc & Hwc).
        rewrite <- (alike_cleared_eq o0 p) in Htruthy.
        - by rewrite compute_diff_refl in Htruthy.
        - apply (Hsame c0 c); try done. right. by eapply list_elem_of_lookup_2. }
      rewrite Hnone in Hcases. destruct Hcases as (-> & -> & _).
      split; [done|]. rewrite app_nil_r. apply Forall_fmap, Forall_true. done. }
    split; [done|]. rewrite !Forall_app.
    split_and!; try done; apply Forall_fmap, Forall_true; done.
Qed.

Lemma for_range_tick_quiet names ctrls start n st evs st' r :
  (∀ k c0 c o0 o, start ≤ k < start + n → ctrls !! 0 = Some c0 → c ∈ ctrls →
     w_observe w k c0 = Ok o0 → w_observe w k c = Ok o → alike_up_to_tags o0 o) →
  for_range (tick FLAGS w names ctrls) start n st = (evs, st', r) →
  st' = st ∧ Forall (λ ev, is_call ev = true) evs.
Proof.
  revert start st evs st' r. induction n as [|n IH]; intros start st evs st' r Hsame.
  - by intros [= <- <- <-].
  - rewrite for_range_S, run_bind.
    destruct (tick FLAGS w names ctrls start st) as [[evs1 st1] r1] eqn:H1.
    apply tick_quiet in H1 as [-> Hevs1];
      [|intros c0 c o0 o; apply Hsame; lia].
    destruct r1 as [[]|e].
    + rewrite run_ret. intros [= <- <- <-]. by rewrite app_nil_r.
    + destruct (for_range (tick FLAGS w names ctrls) (S start) n st)
        as [[evs2 st2] r2] eqn:H2.
      apply IH in H2 as [-> Hevs2];
        [|intros k' c0 c o0 o Hk'; apply Hsame; lia].
      intros [= <- <- <-]. split; [done|]. by apply Forall_app.
    + by intros [= <- <- <-].
Qed.

Lemma report_lines_no_diff_output names st :
  Forall (λ o, diff_output o = false) (report_lines FLAGS names st).
Proof.
  unfold report_lines. apply Forall_app. split.
  - destruct (FLAGS_diff FLAGS); [|constructor].
    constructor; [done|]. apply Forall_app. split.
    + apply Forall_fmap, Forall_true. done.
    + constructor; [done|]. constructor; [done|]. apply Forall_app. split.
      * apply Forall_fmap, Forall_true. done.
      * by repeat constructor.
  - constructor; [done|]. apply Forall_bind, Forall_true. intros iv.
    by repeat constructor.
Qed.

(** X12. With a diff engine that finds a message equal to itself: when
    in every iteration every instance's observation is, tags apart, the
    observation of the reference, the run records no divergence: at its
    end [diff_paths] is empty and every entry of [diff_counts] is 0, and
    no divergence line was printed. *)
Theorem agreeing_engines_record_nothing argv :
  (∀ k i o0 o, k < Z.to_nat (FLAGS_count FLAGS) → i < length (drop 1 argv) →
     w_observe w k 0 = Ok o0 → w_observe w k i = Ok o → alike_up_to_tags o0 o) →
  let '(all, st, _) := run FLAGS w argv in
  diff_paths st = []
  ∧ Forall (λ c, c = 0%Z) (diff_counts st)
  ∧ Forall (λ o, diff_output o = false) (printed all).
Proof.
  intros Hsame.
  destruct (run_cases FLAGS w argv)
    as [[-> ->]|(prog & names & -> & Hcases)]; [by split_and!|].
  simpl in Hsame. rewrite drop_0 in Hsame.
  assert (∀ n, printed (startup_calls n) = []) as Hstartup.
  { intros n. apply printed_calls. constructor; [done|].
    apply Forall_fmap, Forall_true. done. }
  destruct Hcases
    as [(e & _ & ->)
       |[(e & k & Hk & _ & ->)
        |(evs & st & r & evsd & rd & _ & _ & Htry & Hdown & ->)]].
  - by split_and!.
  - rewrite Hstartup. by split_and!.
  - pose proof (try_body_frame _ _ _ _ _ _ _ _ Htry) as (_ & _ & Hprocs & _ & _).
    apply teardown_prefix in Hdown.
    assert (printed evsd = []) as Hevsd.
    { apply printed_calls. destruct Hdown as [rest Hrest].
      pose proof (teardown_calls_all_calls (procs st)) as Hall.
      rewrite Hrest in Hall. by apply Forall_app in Hall as [? _]. }
    assert (st = at_try (length names)
            ∧ Forall (λ o, diff_output o = false) (printed evs)) as [-> Hevs].
    { apply try_body_cases in Htry
        as [(_ & -> & -> & _)|(c0 & rest & Hctrls & Hcases)];
        [split; [done|by repeat constructor]|].
      destruct Hcases as [(e & _ & -> & -> & _)|(_ & evs1 & -> & Hcases)];
        [split; [done|by repeat constructor]|].
      rewrite printed_app.
      change (printed [EvPrint OutRule; EvReplayInfo c0; EvPrint OutReplayInfo;
                       EvPrint OutRule]) with [OutRule; OutReplayInfo; OutRule].
      destruct Hcases as [(e & pre & c & post & _ & -> & _ & -> & _)
                         |(evs2 & _ & -> & Hloop)].
      - split; [done|]. rewrite printed_calls
          by (apply Forall_fmap, Forall_true; done).
        by repeat constructor.
      - apply for_range_tick_quiet in Hloop as [-> Hevs2].
        + split; [done|]. rewrite printed_app.
          rewrite (printed_calls (EvStartReplay <$> _))
            by (apply Forall_fmap, Forall_true; done).
          rewrite (printed_calls evs2) by done. by repeat constructor.
        + intros k c0' c o0 o Hk Hc0' Hc.
          assert (c0' = 0) as ->.
          { destruct (length names); [done|]. by injection Hc0' as <-. }
          apply Hsame; [lia|]. apply elem_of_seq in Hc. lia. }
    split; [done|]. split; [apply Forall_replicate; done|].
    rewrite !printed_app, Hstartup, Hevsd. simpl.
    apply Forall_app. split; [done|].
    unfold report_events. destruct (outcome r rd); [|constructor].
    rewrite printed_prints. apply report_lines_no_diff_output.
Qed.

End Agreement.

(** ** What a run prints of its counters *)

Section Printed.

Context {Fields : Type} `{!DiffEngine Fields}.
Variable FLAGS : Flags.
Variable w : World Fields.

(** An event that is no count line of the report. *)
Lemma no_count_lines (evs : list Event) :
  Forall (λ ev, binary_lines (printed [ev]) = [] ∧ path_lines (printed [ev]) = [])
         evs →
  binary_lines (printed evs) = [] ∧ path_lines (printed evs) = [].
Proof.
  induction 1 as [|ev evs [Hb Hp] _ [IHb IHp]]; [done|].
  change (ev :: evs) with ([ev] ++ evs).
  by rewrite printed_app, binary_lines_app, path_lines_app, Hb, Hp, IHb, IHp.
Qed.

Lemma no_count_lines_calls (evs : list Event) :
  Forall (λ ev, is_call ev = true) evs →
  binary_lines (printed evs) = [] ∧ path_lines (printed evs) = [].
Proof. intros Hcalls. by rewrite printed_calls. Qed.

Lemma try_body_no_count_lines names ctrls st evs st' r :
  try_body FLAGS w names ctrls st = (evs, st', r) →
  binary_lines (printed evs) = [] ∧ path_lines (printed evs) = [].
Proof.
  intros Hrun. apply try_body_cases in Hrun
    as [(_ & -> & _)|(c0 & rest & _ & Hcases)]; [done|].
  destruct Hcases as [(e & _ & -> & _)|(_ & evs1 & -> & Hcases)]; [done|].
  rewrite printed_app, binary_lines_app, path_lines_app.
  change (printed [EvPrint OutRule; EvReplayInfo c0; EvPrint OutReplayInfo;
                   EvPrint OutRule]) with [OutRule; OutReplayInfo; OutRule].
  change (binary_lines [OutRule; OutReplayInfo; OutRule]) with (@nil (string * Z)).
  change (path_lines [OutRule; OutReplayInfo; OutRule]) with (@nil (ProtoPath * Z)).
  rewrite !app_nil_l.
  destruct Hcases as [(e & pre & c & post & _ & -> & _)|(evs2 & _ & -> & Hloop)].
  - apply no_count_lines_calls, Forall_fmap, Forall_true. done.
  - rewrite printed_app, binary_lines_app, path_lines_app.
    destruct (no_count_lines_calls (EvStartReplay <$> ctrls)) as [-> ->];
      [apply Forall_fmap, Forall_true; done|].
    rewrite !app_nil_l. apply no_count_lines.
    by apply (for_range_tick_keeps FLAGS w (λ _, True)
                (λ ev, binary_lines (printed [ev]) = []
                       ∧ path_lines (printed [ev]) = [])) in Hloop as [_ ?].
Qed.

(** X13. When a run with diffing on returns, the count lines it has
    printed are those of its final counters and no others: one line per
    binary named, in the order named, bearing that instance's entry of
    [diff_counts]; and the [most_common(100)] entries of [diff_paths]. *)
Theorem run_prints_final_counters prog names all st :
  FLAGS_diff FLAGS = true →
  run FLAGS w (prog :: names) = (all, st, Ok ()) →
  binary_lines (printed all) = zip names (diff_counts st)
  ∧ (binary_lines (printed all)).*1 = names
  ∧ path_lines (printed all) = most_common 100 (diff_paths st).
Proof.
  intros Hdiff Hrun.
  destruct (run_cases FLAGS w (prog :: names))
    as [[? _]|(prog' & names' & [= <- <-] & Hcases)]; [done|].
  destruct Hcases
    as [(e & _ & Hrun')
       |[(e & k & Hk & _ & Hrun')
        |(evs & st' & r & evsd & rd & _ & _ & Htry & Hdown & Hrun')]];
    rewrite Hrun' in Hrun; [done..|].
  assert (all = startup_calls (length names) ++ evs ++ evsd
                ++ report_events FLAGS names st' (outcome r rd)
          ∧ st' = st ∧ outcome r rd = Ok ()) as (-> & -> & ->)
    by (by injection Hrun as <- <- <-).
  clear Hrun Hrun'.
  pose proof (try_body_frame _ _ _ _ _ _ _ _ Htry) as (_ & _ & _ & Hlen & _).
  simpl in Hlen. rewrite length_replicate in Hlen.
  destruct (try_body_no_count_lines _ _ _ _ _ _ Htry) as [Hb Hp].
  apply teardown_prefix in Hdown.
  destruct (no_count_lines_calls evsd) as [Hbd Hpd].
  { destruct Hdown as [rest Hrest].
    pose proof (teardown_calls_all_calls (procs st)) as Hall.
    rewrite Hrest in Hall. by apply Forall_app in Hall as [? _]. }
  destruct (no_count_lines_calls (startup_calls (length names))) as [Hbs Hps].
  { constructor; [done|]. apply Forall_fmap, Forall_true. done. }
  unfold report_events.
  rewrite !printed_app, !binary_lines_app, !path_lines_app, printed_prints.
  rewrite Hb, Hp, Hbd, Hpd, Hbs, Hps, !app_nil_l.
  rewrite binary_lines_report, path_lines_report by done.
  split_and!; try done. apply fst_zip. lia.
Qed.

End Printed.

(** ** The further properties on runs *)

(** X3, on a run: three instances, the step of instance 1 fails in
    iteration 1. *)
Lemma teardown_on_every_exit_witness :
  let names := ["4.10"; "4.11"; "4.12"] in
  let world := Scenario.faulty 3 (Scenario.step_raises 1 1 (EngineError "step"))
                 (λ _, None) in
  ∃ all st,
    run (Sample.flags true 10) world ("compare_binaries" :: names)
    = (all, st, Raise (EngineError "step"))
    ∧ quit_calls all = [0; 1; 2]
    ∧ close_calls all = [0; 1; 2].
Proof.
  intros names world.
  pose (try_run := try_body (Sample.flags true 10) world names [0; 1; 2] (at_try 3)).
  destruct (teardown_on_every_exit (Sample.flags true 10) world
              "compare_binaries" names try_run.1.1 try_run.1.2 try_run.2)
    as (all & Hrun & _ & Hq & Hc).
  - reflexivity.
  - intros i _. reflexivity.
  - intros i _. split; reflexivity.
  - reflexivity.
  - exists all, try_run.1.2. split; [exact Hrun|]. split; [exact Hq|exact Hc].
Defined.

(** X4, on a run: two instances, a step fails in iteration 1 and then
    the [quit] of instance 1 fails. *)
Lemma teardown_failure_replaces_outcome_witness :
  let names := ["4.10"; "4.11"] in
  let world := Scenario.faulty 3 (Scenario.step_raises 1 0 (EngineError "step"))
                 (Scenario.quit_raises 1 (EngineError "quit")) in
  let try_run := try_body (Sample.flags true 10) world names [0; 1] (at_try 2) in
  try_run.2 = Raise (EngineError "step")
  ∧ run (Sample.flags true 10) world ("compare_binaries" :: names)
    = (startup_calls 2 ++ try_run.1.1 ++ [EvQuit 0; EvClose 0; EvQuit 1],
       try_run.1.2, Raise (EngineError "quit")).
Proof.
  intros names world try_run. split; [reflexivity|].
  apply (teardown_failure_replaces_outcome (Sample.flags true 10) world
           "compare_binaries" names try_run.1.1 try_run.1.2 try_run.2
           [0] 1 [] (EngineError "quit")).
  - reflexivity.
  - intros i _. reflexivity.
  - reflexivity.
  - reflexivity.
  - intros q Hq. apply list_elem_of_singleton in Hq as ->. split; reflexivity.
  - left. reflexivity.
Defined.

(** X6, on a run: the exception the run ends with is the one a step
    raised. *)
Lemma main_raises_only_what_is_raised_witness :
  raised_by (Scenario.faulty 3 (Scenario.step_raises 1 1 (EngineError "step"))
               (λ _, None))
            (EngineError "step").
Proof.
  pose (world := Scenario.faulty 3 (Scenario.step_raises 1 1 (EngineError "step"))
                   (λ _, None)).
  pose (result := run (Sample.flags true 10) world
                    ["compare_binaries"; "4.10"; "4.11"; "4.12"]).
  apply (main_raises_only_what_is_raised (Sample.flags true 10) world
           "compare_binaries" "4.10" ["4.11"; "4.12"] result.1.1 result.1.2).
  reflexivity.
Defined.

(** X7, on a run: two instances that never fail, three observations, the
    game never over. *)
Lemma clean_run_calls_witness :
  ∃ all st,
    run (Sample.flags true 3) Scenario.identical ["compare_binaries"; "4.10"; "4.11"]
    = (all, st, Ok ())
    ∧ engine_calls all
      = startup_calls 2
        ++ EvReplayInfo 0 :: (EvStartReplay <$> [0; 1])
        ++ (seq 0 3 ≫= lockstep_calls true [0; 1])
        ++ teardown_calls [0; 1].
Proof.
  destruct (clean_run_calls (Sample.flags true 3) Scenario.identical
              "compare_binaries" ["4.10"; "4.11"])
    as (all & st & Hrun & Hcalls & _).
  - discriminate.
  - split; [reflexivity|]. intros i _. split_and!; try reflexivity.
    intros k _. split; [reflexivity|]. eexists. reflexivity.
  - exists all, st. split; [exact Hrun|exact Hcalls].
Defined.

(** X8, on a run: a budget of 0 observations. *)
Lemma no_budget_no_step_witness :
  lockstep_trace
    (run (Sample.flags true 0) (Sample.steady 2)
       ["compare_binaries"; "4.10"; "4.11"]).1.1 = [].
Proof.
  apply (no_budget_no_step (Sample.flags true 0) (Sample.steady 2)). simpl. lia.
Defined.

(** X9, on a run: diffing off, three instances of which one diverges. *)
Lemma diff_off_compares_nothing_witness :
  let '(all, st, _) :=
    run (Sample.flags false 10) (Sample.steady 2)
      ["compare_binaries"; "4.10"; "4.11"; "4.12"] in
  (∀ k i, EvComputeDiff k i ∉ all)
  ∧ diff_paths st = []
  ∧ Forall (λ c, c = 0%Z) (diff_counts st).
Proof.
  apply (diff_off_compares_nothing (Sample.flags false 10) (Sample.steady 2)
           ["compare_binaries"; "4.10"; "4.11"; "4.12"]).
  reflexivity.
Defined.

Lemma sample_diff_refl (o : ResponseObservation unit) :
  diff_truthy (compute_diff o o) = false.
Proof.
  simpl. unfold Sample.sample_diff. rewrite decide_True by done. simpl.
  generalize (seq 0 (length (Sample.tags o) `max` length (Sample.tags o))).
  intros l. induction l as [|i l IH]; [done|].
  simpl. by rewrite decide_True by done.
Qed.

(** X12, on a run: three instances whose observations differ in the
    units' tags only. *)
Lemma agreeing_engines_record_nothing_witness :
  let '(all, st, _) :=
    run (Sample.flags true 5) Scenario.identical
      ["compare_binaries"; "4.10"; "4.11"; "4.12"] in
  diff_paths st = []
  ∧ Forall (λ c, c = 0%Z) (diff_counts st)
  ∧ Forall (λ o, diff_output o = false) (printed all).
Proof.
  apply (agreeing_engines_record_nothing (Sample.flags true 5) Scenario.identical
           sample_diff_refl ["compare_binaries"; "4.10"; "4.11"; "4.12"]).
  intros k i o0 o _ _ [= <-] [= <-].
  unfold alike_up_to_tags, Sample.mk_obs. simpl.
  split; [constructor|]. split; [|done]. constructor.
  unfold observation_alike. simpl. split; [done|]. split; [|done]. constructor.
  unfold raw_data_alike. simpl. split; [|done].
  repeat constructor.
Defined.

(** X13, on a run: three instances, the third diverging twice. *)
Lemma run_prints_final_counters_witness :
  let result :=
    run (Sample.flags true 10) (Sample.steady 2)
      ["compare_binaries"; "4.10"; "4.11"; "4.12"] in
  binary_lines (printed result.1.1) = [("4.10", 0%Z); ("4.11", 0%Z); ("4.12", 2%Z)]
  ∧ (binary_lines (printed result.1.1)).*1 = ["4.10"; "4.11"; "4.12"]
  ∧ path_lines (printed result.1.1)
    = [([("observation", None); ("game_loop", None)], 2%Z)].
Proof.
  intros result.
  apply (run_prints_final_counters (Sample.flags true 10) (Sample.steady 2)
           "compare_binaries" ["4.10"; "4.11"; "4.12"] result.1.1 result.1.2);
    reflexivity.
Defined.

(** C9 fails on the code as far as it has the instances ranked by their
    counts: in this run of three instances the third diverges twice and
    the others never; the run returns, its per-binary lines stand in
    instance order, with the counts 0, 0, 2, and not in descending order
    of count. *)
Lemma report_lists_instances_unranked :
  let result :=
    run (Sample.flags true 10) (Sample.steady 2)
      ["compare_binaries"; "4.10"; "4.11"; "4.12"] in
  result.2 = Ok ()
  ∧ binary_lines (printed result.1.1)
    = [("4.10", 0%Z); ("4.11", 0%Z); ("4.12", 2%Z)]
  ∧ ¬ StronglySorted by_count_desc (binary_lines (printed result.1.1)).
Proof.
  intros result.
  assert (binary_lines (printed result.1.1)
          = [("4.10", 0%Z); ("4.11", 0%Z); ("4.12", 2%Z)]) as Hlines
    by reflexivity.
  split; [reflexivity|]. split; [exact Hlines|].
  rewrite Hlines. intros Hsorted.
  apply StronglySorted_inv in Hsorted as [_ Hfirst].
  apply Forall_cons in Hfirst as [_ Hrest].
  apply Forall_cons in Hrest as [Hlast _].
  unfold by_count_desc in Hlast. simpl in Hlast. lia.
Qed.
